(** * Chirpy: the sanitizer, the request validators and the credential check

    A shallow embedding of [src/main.go] (package [main] of azs06/Chirpy).

    Go strings are immutable byte sequences, so a Go [string] is a Rocq
    [string] (a list of 8-bit [ascii]); [len] is [String.length], the
    number of BYTES.  The functions of Go's standard library that
    [sanitize] calls ([strings.Split], [strings.Trim], [strings.ToLower],
    [strings.Join], [slices.Contains]) are embedded in modules that carry
    the names of their Go packages. *)

From Stdlib Require Import ZArith List Bool Ascii String Lia.
Import ListNotations.

Local Open Scope string_scope.
Local Open Scope Z_scope.

(* ================================================================== *)
(** ** Bytes *)

(** The numeric value of a byte, [0 <= byteZ c < 256]. *)
Definition byteZ (c : ascii) : Z := Z.of_N (N_of_ascii c).

(** Go's conversion [byte(x)]: the low eight bits. *)
Definition toByte (z : Z) : ascii := ascii_of_N (Z.to_N (z mod 256)).

(** [s[i]] for an index the caller has checked to be in range. *)
Definition byteAt (s : string) (i : nat) : Z :=
  match String.get i s with
  | Some c => byteZ c
  | None => 0
  end.

(* ================================================================== *)
(** ** Package [unicode/utf8] *)

Module utf8.

Definition RuneError : Z := 0xFFFD.
Definition RuneSelf : Z := 0x80.
Definition MaxRune : Z := 0x10FFFF.

Definition surrogateMin : Z := 0xD800.
Definition surrogateMax : Z := 0xDFFF.

Definition tx : Z := 0x80.
Definition t2 : Z := 0xC0.
Definition t3 : Z := 0xE0.
Definition t4 : Z := 0xF0.

Definition maskx : Z := 0x3F.
Definition mask2 : Z := 0x1F.
Definition mask3 : Z := 0x0F.
Definition mask4 : Z := 0x07.

Definition rune1Max : Z := 0x7F.
Definition rune2Max : Z := 0x7FF.
Definition rune3Max : Z := 0xFFFF.

Definition locb : Z := 0x80.
Definition hicb : Z := 0xBF.

(** Codes of the [first] table: the low nibble is the size of the
    sequence, the high nibble an index into [acceptRanges]. *)
Definition xx : Z := 0xF1.
Definition as_ : Z := 0xF0.
Definition s1 : Z := 0x02.
Definition s2 : Z := 0x13.
Definition s3 : Z := 0x03.
Definition s4 : Z := 0x23.
Definition s5 : Z := 0x34.
Definition s6 : Z := 0x04.
Definition s7 : Z := 0x44.

(** [first[b]]: information about the first byte of a sequence. *)
Definition first (b : Z) : Z :=
  if b <? 0x80 then as_
  else if b <? 0xC2 then xx
  else if b <? 0xE0 then s1
  else if b =? 0xE0 then s2
  else if b <? 0xED then s3
  else if b =? 0xED then s4
  else if b <? 0xF0 then s3
  else if b =? 0xF0 then s5
  else if b <? 0xF4 then s6
  else if b =? 0xF4 then s7
  else xx.

(** [acceptRanges[i]]: the bounds [(lo, hi)] on the second byte. *)
Definition acceptRanges (i : Z) : Z * Z :=
  if i =? 0 then (locb, hicb)
  else if i =? 1 then (0xA0, hicb)
  else if i =? 2 then (locb, 0x9F)
  else if i =? 3 then (0x90, hicb)
  else if i =? 4 then (locb, 0x8F)
  else (0, 0).

(** [utf8.DecodeRuneInString]: the first rune of [s] and its width in
    bytes; an invalid encoding yields [(RuneError, 1)], the empty string
    [(RuneError, 0)]. *)
Definition DecodeRuneInString (s : string) : Z * nat :=
  let n := String.length s in
  if (n <? 1)%nat then (RuneError, 0%nat)
  else
    let s0 := byteAt s 0 in
    let x := first s0 in
    if x >=? as_ then
      (if x =? xx then RuneError else s0, 1%nat)
    else
      let sz := Z.to_nat (Z.land x 7) in
      let accept := acceptRanges (Z.shiftr x 4) in
      if (n <? sz)%nat then (RuneError, 1%nat)
      else
        let c1 := byteAt s 1 in
        if (c1 <? fst accept) || (snd accept <? c1) then (RuneError, 1%nat)
        else if (sz <=? 2)%nat then
          (Z.lor (Z.shiftl (Z.land s0 mask2) 6) (Z.land c1 maskx), 2%nat)
        else
          let c2 := byteAt s 2 in
          if (c2 <? locb) || (hicb <? c2) then (RuneError, 1%nat)
          else if (sz <=? 3)%nat then
            (Z.lor (Z.lor (Z.shiftl (Z.land s0 mask3) 12)
                          (Z.shiftl (Z.land c1 maskx) 6))
                   (Z.land c2 maskx), 3%nat)
          else
            let c3 := byteAt s 3 in
            if (c3 <? locb) || (hicb <? c3) then (RuneError, 1%nat)
            else
              (Z.lor (Z.lor (Z.lor (Z.shiftl (Z.land s0 mask4) 18)
                                   (Z.shiftl (Z.land c1 maskx) 12))
                            (Z.shiftl (Z.land c2 maskx) 6))
                     (Z.land c3 maskx), 4%nat).

(** [utf8.AppendRune(nil, r)]: the UTF-8 encoding of [r].  Runes out of
    range and surrogates are encoded as [RuneError]. *)
Definition AppendRune (r : Z) : string :=
  let enc3 (r : Z) :=
    String (toByte (Z.lor t3 (Z.shiftr r 12)))
      (String (toByte (Z.lor tx (Z.land (Z.shiftr r 6) maskx)))
         (String (toByte (Z.lor tx (Z.land r maskx))) EmptyString)) in
  if (0 <=? r) && (r <=? rune1Max) then String (toByte r) EmptyString
  else if (0 <=? r) && (r <=? rune2Max) then
    String (toByte (Z.lor t2 (Z.shiftr r 6)))
      (String (toByte (Z.lor tx (Z.land r maskx))) EmptyString)
  else if (r <? 0) || (MaxRune <? r)
          || ((surrogateMin <=? r) && (r <=? surrogateMax)) then
    enc3 RuneError
  else if r <=? rune3Max then enc3 r
  else
    String (toByte (Z.lor t4 (Z.shiftr r 18)))
      (String (toByte (Z.lor tx (Z.land (Z.shiftr r 12) maskx)))
         (String (toByte (Z.lor tx (Z.land (Z.shiftr r 6) maskx)))
            (String (toByte (Z.lor tx (Z.land r maskx))) EmptyString))).

(** The runes that [for _, c := range s] yields, in order.  [skip] counts
    the bytes of [s] that still belong to the rune decoded last: the loop
    decodes at a position and then advances by the width it found. *)
Fixpoint rangeFrom (skip : nat) (s : string) : list Z :=
  match s with
  | EmptyString => []
  | String _ s' =>
      match skip with
      | S k => rangeFrom k s'
      | O =>
          let '(r, w) := DecodeRuneInString s in
          r :: rangeFrom (Nat.pred w) s'
      end
  end.

Definition range (s : string) : list Z := rangeFrom 0 s.

(** [utf8.RuneCountInString]: the number of runes of [s], each invalid
    byte counting as one rune of width one. *)
Definition RuneCountInString (s : string) : nat := List.length (range s).

End utf8.

(* ================================================================== *)
(** ** Package [unicode] *)

Module unicode.

Definition MaxASCII : Z := 0x7F.

Section CaseTable.

(** [unicode.To(unicode.LowerCase, r)]: the lower case of a rune above
    [MaxASCII], which Go looks up in its table [unicode.CaseRanges].  The
    table is part of Go's standard library and not of this repository. *)
Variable To_LowerCase : Z -> Z.

(** [unicode.ToLower]. *)
Definition ToLower (r : Z) : Z :=
  if r <=? MaxASCII then
    if (byteZ "A" <=? r) && (r <=? byteZ "Z")
    then r + (byteZ "a" - byteZ "A")
    else r
  else To_LowerCase r.

End CaseTable.

End unicode.

(* ================================================================== *)
(** ** Package [slices] *)

Module slices.

(** [slices.Contains(s, v)] on a slice of strings. *)
Definition Contains (s : list string) (v : string) : bool :=
  existsb (String.eqb v) s.

End slices.

(* ================================================================== *)
(** ** Package [strings] *)

Module strings.

(** Helpers that walk a string byte by byte, as Go's
    [for i := 0; i < len(s); i++] loops do. *)
Fixpoint allBytes (p : ascii -> bool) (s : string) : bool :=
  match s with
  | EmptyString => true
  | String c s' => p c && allBytes p s'
  end.

Fixpoint anyByte (p : ascii -> bool) (s : string) : bool :=
  match s with
  | EmptyString => false
  | String c s' => p c || anyByte p s'
  end.

Fixpoint mapBytes (f : ascii -> ascii) (s : string) : string :=
  match s with
  | EmptyString => EmptyString
  | String c s' => String (f c) (mapBytes f s')
  end.

(** [s[n:]]. *)
Fixpoint sliceFrom (n : nat) (s : string) : string :=
  match n, s with
  | O, _ => s
  | S k, EmptyString => EmptyString
  | S k, String _ s' => sliceFrom k s'
  end.

(** [strings.HasPrefix]. *)
Definition HasPrefix (s pre : string) : bool := String.prefix pre s.

(** [strings.Split(s, sep)] for a separator that is not empty (an empty
    separator makes Go split after each rune, which [sanitize] never
    asks for).  Go cuts [s] at every occurrence of [sep], searching from
    the left and resuming after the occurrence; [skip] counts the bytes
    of the occurrence found last that are still to be passed over.  The
    result has one more element than there are occurrences, so it is
    never empty: [Split("", sep)] is the one-element slice of the empty
    string. *)
Fixpoint genSplit (sep : string) (skip : nat) (s : string) : list string :=
  match s with
  | EmptyString => [EmptyString]
  | String c s' =>
      match skip with
      | S k => genSplit sep k s'
      | O =>
          if HasPrefix s sep
          then EmptyString :: genSplit sep (Nat.pred (String.length sep)) s'
          else match genSplit sep 0 s' with
               | t :: ts => String c t :: ts
               | [] => [String c EmptyString]
               end
      end
  end.

Definition Split (s sep : string) : list string := genSplit sep 0 s.

(** [strings.Join(elems, sep)]. *)
Fixpoint Join (elems : list string) (sep : string) : string :=
  match elems with
  | [] => EmptyString
  | [e] => e
  | e :: rest => e ++ sep ++ Join rest sep
  end.

(** Membership in an [asciiSet] built by [makeASCIISet(cutset)], for a
    cutset of ASCII bytes. *)
Definition contains (cutset : string) (c : ascii) : bool :=
  anyByte (Ascii.eqb c) cutset.

(** [trimLeftASCII]: drop leading bytes while they are in the set. *)
Fixpoint trimLeftASCII (s : string) (cutset : string) : string :=
  match s with
  | EmptyString => EmptyString
  | String c s' => if contains cutset c then trimLeftASCII s' cutset else s
  end.

(** [trimRightASCII]: drop trailing bytes while they are in the set. *)
Fixpoint trimRightASCII (s : string) (cutset : string) : string :=
  match s with
  | EmptyString => EmptyString
  | String c s' =>
      match trimRightASCII s' cutset with
      | EmptyString =>
          if contains cutset c then EmptyString else String c EmptyString
      | t => String c t
      end
  end.

(** [strings.Trim(s, cutset)] for a cutset of ASCII bytes, the path Go
    takes for [sanitize]'s cutset: trim on the right, then on the left. *)
Definition Trim (s cutset : string) : string :=
  if (s =? "")%string || (cutset =? "")%string then s
  else trimLeftASCII (trimRightASCII s cutset) cutset.

Section Mapping.

Variable mapping : Z -> Z.

(** What [strings.Map] writes for one rune: its image under [mapping]
    encoded in UTF-8, or nothing when the image is negative. *)
Definition writeMapped (c : Z) : string :=
  let r := mapping c in
  if r >=? 0 then utf8.AppendRune r else EmptyString.

(** The second loop of [strings.Map]: every rune is mapped and written. *)
Fixpoint mapRest (runes : list Z) : string :=
  match runes with
  | [] => EmptyString
  | c :: cs => writeMapped c ++ mapRest cs
  end.

(** The first loop of [strings.Map]: it runs over the runes that
    [mapping] leaves alone and copies nothing; at the first rune that
    changes, or the first invalid byte, the output becomes the bytes seen
    so far, the image of that rune, and the second loop over what
    follows.  [None]: the loop reached the end, [s] is returned as it
    is.  [skip] is the number of bytes still inside the rune decoded
    last. *)
Fixpoint mapScan (skip : nat) (s : string) : option string :=
  match s with
  | EmptyString => None
  | String c0 s' =>
      match skip with
      | S k => option_map (String c0) (mapScan k s')
      | O =>
          let '(c, width) := utf8.DecodeRuneInString s in
          let r := mapping c in
          if (r =? c) && (negb (c =? utf8.RuneError) || negb (width =? 1)%nat)
          then option_map (String c0) (mapScan (Nat.pred width) s')
          else Some (writeMapped c ++ mapRest (utf8.range (sliceFrom width s)))
      end
  end.

(** [strings.Map(mapping, s)]. *)
Definition Map (s : string) : string :=
  match mapScan 0 s with
  | None => s
  | Some out => out
  end.

End Mapping.

Section CaseTable.

Variable To_LowerCase : Z -> Z.

(** [strings.ToLower]: a string of ASCII bytes is lowered byte by byte
    (and returned as it is when it has no upper-case letter); any other
    string goes through [Map(unicode.ToLower, s)]. *)
Definition ToLower (s : string) : string :=
  let isASCII := allBytes (fun c => byteZ c <? utf8.RuneSelf) s in
  let hasUpper :=
    anyByte (fun c => (byteZ "A" <=? byteZ c) && (byteZ c <=? byteZ "Z")) s in
  if isASCII then
    if negb hasUpper then s
    else mapBytes (fun c =>
                     if (byteZ "A" <=? byteZ c) && (byteZ c <=? byteZ "Z")
                     then toByte (byteZ c + (byteZ "a" - byteZ "A"))
                     else c) s
  else Map (unicode.ToLower To_LowerCase) s.

End CaseTable.

End strings.

(* ================================================================== *)
(** ** [sanitize] (src/main.go) *)

Definition badWords : list string := ["kerfuffle"; "sharbert"; "fornax"].

Section Sanitizer.

Variable To_LowerCase : Z -> Z.

(** The test of the loop body: [clean] is the token trimmed and lowered,
    looked up in [badWords]. *)
Definition isBadWord (v : string) : bool :=
  let clean := strings.ToLower To_LowerCase (strings.Trim v ".,!?") in
  slices.Contains badWords clean.

(** One iteration of the loop: [rtSlice = append(rtSlice, ...)]. *)
Definition sanitizeStep (rtSlice : list string) (v : string) : list string :=
  if isBadWord v then rtSlice ++ ["****"] else rtSlice ++ [v].

Definition sanitize (s : string) : string :=
  let strSlice := strings.Split s " " in
  let rtSlice := fold_left sanitizeStep strSlice [] in
  strings.Join rtSlice " ".

End Sanitizer.

(* ================================================================== *)
(** ** The request handlers of [newServer] (src/main.go) *)

(** [sql.NullString]. *)
Record NullString : Type := mkNullString {
  String_ : string;
  Valid : bool
}.

Section Handlers.

Variable To_LowerCase : Z -> Z.

(** [uuid.UUID], [time.Time], Go's [error], the contents of the
    database, and the state of the process outside it (the source of
    randomness that salts a password hash). *)
Variables UUID Time error Store Env : Type.

(** The decoded request bodies ([type parameters struct]). *)
Record chirpParameters : Type := {
  Body : string;
  UserId : UUID
}.

Record userParameters : Type := {
  Email : string;
  Password : string
}.

(** [database.CreateChirpParams], [database.Chirp]. *)
Record CreateChirpParams : Type := {
  ccp_Body : NullString;
  ccp_UserID : UUID
}.

Record Chirp : Type := {
  chirp_ID : UUID;
  chirp_CreatedAt : Time;
  chirp_UpdatedAt : Time;
  chirp_Body : NullString;
  chirp_UserID : UUID
}.

(** [database.CreateUserParams], [database.User]. *)
Record CreateUserParams : Type := {
  cup_Email : NullString;
  cup_HashedPassword : string
}.

Record User : Type := {
  user_ID : UUID;
  user_CreatedAt : Time;
  user_UpdatedAt : Time;
  user_Email : NullString;
  user_HashedPassword : string
}.

(** The query layer and the [auth] package, which the handlers call. *)
Variable CreateChirp : Store -> CreateChirpParams -> Store * (error + Chirp).
Variable CreateUser : Store -> CreateUserParams -> Store * (error + User).
Variable HashPassword : Env -> string -> Env * (error + string).

(** What [json.Marshal] is given. *)
Inductive payload : Type :=
| errResp (Error : string)
| chirpResp (ID : UUID) (CreatedAt UpdatedAt : Time) (Body : string)
            (UserId : UUID)
| userResp (ID : UUID) (CreatedAt UpdatedAt : Time) (Email : string).

(** What a handler does that can be seen from outside, in order. *)
Inductive effect : Type :=
| SetHeader (key value : string)
| WriteHeader (code : Z)
| Write (dat : payload)
| Print (err : error)
| CallHashPassword (password : string)
| CallCreateChirp (arg : CreateChirpParams)
| CallCreateUser (arg : CreateUserParams).

Record World : Type := {
  store : Store;
  env : Env;
  trace : list effect
}.

(** Handlers thread the world through their steps. *)
Definition M (A : Type) : Type := World -> A * World.

Definition ret {A : Type} (a : A) : M A := fun w => (a, w).

Definition bind {A B : Type} (m : M A) (k : A -> M B) : M B :=
  fun w => let '(a, w') := m w in k a w'.

Notation "x <- m ;; k" := (bind m (fun x => k))
  (at level 61, m at next level, right associativity).
Notation "m ;; k" := (bind m (fun _ => k))
  (at level 61, right associativity).

Definition emit (e : effect) : M unit :=
  fun w => (tt, {| store := store w; env := env w; trace := trace w ++ [e] |}).

Definition db_CreateChirp (arg : CreateChirpParams) : M (error + Chirp) :=
  fun w =>
    let '(st, r) := CreateChirp (store w) arg in
    (r, {| store := st; env := env w;
           trace := trace w ++ [CallCreateChirp arg] |}).

Definition db_CreateUser (arg : CreateUserParams) : M (error + User) :=
  fun w =>
    let '(st, r) := CreateUser (store w) arg in
    (r, {| store := st; env := env w;
           trace := trace w ++ [CallCreateUser arg] |}).

Definition auth_HashPassword (password : string) : M (error + string) :=
  fun w =>
    let '(e, r) := HashPassword (env w) password in
    (r, {| store := store w; env := e;
           trace := trace w ++ [CallHashPassword password] |}).

(** [POST /api/chirps].  [decoded] is the outcome of
    [decoder.Decode(&params)]. *)
Definition postChirps (decoded : error + chirpParameters) : M unit :=
  emit (SetHeader "Content-Type" "application/json") ;;
  match decoded with
  | inl err =>
      emit (Print err) ;;
      emit (WriteHeader 500) ;;
      emit (Write (errResp "Something went wrong"))
  | inr params =>
      if (140 <? String.length (Body params))%nat then
        emit (WriteHeader 400) ;;
        emit (Write (errResp "Chirp is too long"))
      else
        let chirpParam :=
          {| ccp_Body := {| String_ := sanitize To_LowerCase (Body params);
                            Valid := true |};
             ccp_UserID := UserId params |} in
        res <- db_CreateChirp chirpParam ;;
        match res with
        | inl err =>
            emit (Print err) ;;
            emit (WriteHeader 500)
        | inr chirp =>
            emit (WriteHeader 201) ;;
            emit (Write (chirpResp (chirp_ID chirp)
                                   (chirp_CreatedAt chirp)
                                   (chirp_UpdatedAt chirp)
                                   (String_ (chirp_Body chirp))
                                   (chirp_UserID chirp)))
        end
  end.

(** [POST /api/users]. *)
Definition postUsers (decoded : error + userParameters) : M unit :=
  match decoded with
  | inl err =>
      emit (Print err) ;;
      emit (WriteHeader 500)
  | inr params =>
      hashed <- auth_HashPassword (Password params) ;;
      match hashed with
      | inl err =>
          emit (Print err) ;;
          emit (WriteHeader 500)
      | inr hPassword =>
          let userData :=
            {| cup_Email := {| String_ := Email params;
                               Valid := negb (Email params =? "")%string |};
               cup_HashedPassword := hPassword |} in
          res <- db_CreateUser userData ;;
          match res with
          | inl err =>
              emit (Print err) ;;
              emit (WriteHeader 500)
          | inr user =>
              emit (SetHeader "Content-Type" "application/json") ;;
              emit (WriteHeader 201) ;;
              emit (Write (userResp (user_ID user)
                                    (user_CreatedAt user)
                                    (user_UpdatedAt user)
                                    (String_ (user_Email user))))
          end
      end
  end.

(** The status code a response carries: the first [WriteHeader], or 200
    when the handler writes a body without one. *)
Fixpoint statusOf (t : list effect) : option Z :=
  match t with
  | [] => None
  | WriteHeader code :: _ => Some code
  | Write _ :: _ => Some 200
  | _ :: t' => statusOf t'
  end.

(** The calls a handler made to [CreateChirp]. *)
Fixpoint createChirpCalls (t : list effect) : list CreateChirpParams :=
  match t with
  | [] => []
  | CallCreateChirp arg :: t' => arg :: createChirpCalls t'
  | _ :: t' => createChirpCalls t'
  end.

(** The calls a handler made to [CreateUser]. *)
Fixpoint createUserCalls (t : list effect) : list CreateUserParams :=
  match t with
  | [] => []
  | CallCreateUser arg :: t' => arg :: createUserCalls t'
  | _ :: t' => createUserCalls t'
  end.

End Handlers.

Arguments Body {UUID} _.
Arguments UserId {UUID} _.
Arguments ccp_Body {UUID} _.
Arguments ccp_UserID {UUID} _.
Arguments chirp_ID {UUID Time} _.
Arguments chirp_CreatedAt {UUID Time} _.
Arguments chirp_UpdatedAt {UUID Time} _.
Arguments chirp_Body {UUID Time} _.
Arguments chirp_UserID {UUID Time} _.
Arguments user_ID {UUID Time} _.
Arguments user_CreatedAt {UUID Time} _.
Arguments user_UpdatedAt {UUID Time} _.
Arguments user_Email {UUID Time} _.
Arguments user_HashedPassword {UUID Time} _.
Arguments errResp {UUID Time} Error.
Arguments chirpResp {UUID Time} ID CreatedAt UpdatedAt Body UserId.
Arguments userResp {UUID Time} ID CreatedAt UpdatedAt Email.
Arguments SetHeader {UUID Time error} key value.
Arguments WriteHeader {UUID Time error} code.
Arguments Write {UUID Time error} dat.
Arguments Print {UUID Time error} err.
Arguments CallHashPassword {UUID Time error} password.
Arguments CallCreateChirp {UUID Time error} arg.
Arguments CallCreateUser {UUID Time error} arg.
Arguments store {UUID Time error Store Env} _.
Arguments env {UUID Time error Store Env} _.
Arguments trace {UUID Time error Store Env} _.
Arguments postChirps To_LowerCase {UUID Time error Store Env} CreateChirp
  decoded _.
Arguments postUsers {UUID Time error Store Env} CreateUser HashPassword
  decoded _.
Arguments statusOf {UUID Time error} t.
Arguments createChirpCalls {UUID Time error} t.
Arguments createUserCalls {UUID Time error} t.

(** The header that the JSON handlers set. *)
Definition contentTypeJSON {UUID Time error : Type} : effect UUID Time error :=
  SetHeader "Content-Type" "application/json".

(** The response to a body that is too long: status 400 and the error
    message, as JSON. *)
Definition tooLongResponse {UUID Time error : Type}
  : list (effect UUID Time error) :=
  [WriteHeader 400; Write (errResp "Chirp is too long")].

(* ================================================================== *)
(** ** Package [internal/auth] *)

Module auth.

Inductive authError : Type :=
| HashingError
| VerificationError.

Section Credential.

(** The adaptive one-way function ([salt], [plaintext] to digest) and the
    length of the salt it expects. *)
Variable kdf : string -> string -> string.
Variable saltLen : nat.

(** Modelled from the spec: [HashPassword] of package [internal/auth],
    whose source is not in the repository snapshot.  The spec asks for a
    salted one-way hash of any plaintext, the empty one too, stored as
    one string, and for a [HashingError] on an internal cryptographic
    failure.  The salt is the randomness the call draws; it is stored in
    front of the digest, and a salt of the wrong length is the internal
    failure. *)
Definition HashPassword (salt plaintext : string) : authError + string :=
  if (String.length salt =? saltLen)%nat
  then inr (salt ++ kdf salt plaintext)
  else inl HashingError.

(** Modelled from the spec: [CheckHashedPassword] of package
    [internal/auth].  It recomputes the digest of the plaintext under the
    stored salt and compares; a mismatch is [false] without an error, and
    a stored hash too short to hold a salt is malformed: a
    [VerificationError], reported with "no match". *)
Definition CheckHashedPassword (plaintext hash : string)
  : bool * option authError :=
  if (String.length hash <? saltLen)%nat
  then (false, Some VerificationError)
  else
    let salt := String.substring 0 saltLen hash in
    let digest := strings.sliceFrom saltLen hash in
    ((kdf salt plaintext =? digest)%string, None).

End Credential.

End auth.

(* ================================================================== *)
(** ** What the spec says of [sanitize], in its own words *)

Section SanitizerSpec.

Variable To_LowerCase : Z -> Z.

(** The fate of one token: masked when its trimmed, lowered form is on
    the blacklist, kept as it is otherwise. *)
Definition maskToken (v : string) : string :=
  if slices.Contains ["kerfuffle"; "sharbert"; "fornax"]
       (strings.ToLower To_LowerCase (strings.Trim v ".,!?"))
  then "****" else v.

(** Split on spaces, mask token by token, join with single spaces. *)
Definition sanitizeSpec (s : string) : string :=
  strings.Join (map maskToken (strings.Split s " ")) " ".

End SanitizerSpec.

(** A token holds no space. *)
Definition noSpace (t : string) : bool :=
  negb (strings.anyByte (Ascii.eqb " ") t).

(** [s] holds two spaces in a row. *)
Definition hasSpaceRun (s : string) : Prop :=
  exists a b : string, s = a ++ "  " ++ b.

(** [s] begins, or ends, with a byte of [cutset]. *)
Definition startsIn (cutset s : string) : bool :=
  match s with
  | EmptyString => false
  | String c _ => strings.contains cutset c
  end.

Fixpoint endsIn (cutset s : string) : bool :=
  match s with
  | EmptyString => false
  | String c EmptyString => strings.contains cutset c
  | String _ s' => endsIn cutset s'
  end.

(** Every byte of [s] is below [utf8.RuneSelf]. *)
Definition isASCII (s : string) : bool :=
  strings.allBytes (fun c => byteZ c <? utf8.RuneSelf) s.

(** [n] copies of [t] in a row. *)
Fixpoint repeatString (n : nat) (t : string) : string :=
  match n with
  | O => EmptyString
  | S k => t ++ repeatString k t
  end.

(* ================================================================== *)
(** ** Stand-ins for running the handlers on concrete requests *)

Module InMemory.

(** A fragment of Go's case table: the Latin-1 capitals, the Greek and
    Cyrillic capitals, the dotted capital I and the Kelvin sign. *)
Definition To_LowerCase (r : Z) : Z :=
  if ((0xC0 <=? r) && (r <=? 0xDE) && negb (r =? 0xD7))
     || ((0x391 <=? r) && (r <=? 0x3A9) && negb (r =? 0x3A2))
     || ((0x410 <=? r) && (r <=? 0x42F))
  then r + 32
  else if r =? 0x130 then 0x69
  else if r =? 0x212A then 0x6B
  else r.

Definition UUID : Type := nat.
Definition Time : Type := nat.
Definition error : Type := string.

(** The tables [chirps] and [users]. *)
Definition Store : Type := (list (Chirp UUID Time) * list (User UUID Time))%type.

(** The salts still to be drawn. *)
Definition Env : Type := list string.

Definition CreateChirp (st : Store) (arg : CreateChirpParams UUID)
  : Store * (error + Chirp UUID Time) :=
  let c := {| chirp_ID := List.length (fst st);
              chirp_CreatedAt := 0%nat;
              chirp_UpdatedAt := 0%nat;
              chirp_Body := ccp_Body arg;
              chirp_UserID := ccp_UserID arg |} in
  (((fst st ++ [c])%list, snd st), inr c).

Definition CreateUser (st : Store) (arg : CreateUserParams)
  : Store * (error + User UUID Time) :=
  let u := {| user_ID := List.length (snd st);
              user_CreatedAt := 0%nat;
              user_UpdatedAt := 0%nat;
              user_Email := cup_Email arg;
              user_HashedPassword := cup_HashedPassword arg |} in
  ((fst st, (snd st ++ [u])%list), inr u).

(** A toy digest: the salt, a colon and the plaintext, reversed.  It is
    not one-way; it only lets the credential functions run. *)
Definition kdf (salt plaintext : string) : string :=
  string_of_list_ascii (rev (list_ascii_of_string (salt ++ ":" ++ plaintext))).

Definition saltLen : nat := 4.

Definition HashPassword (e : Env) (password : string)
  : Env * (error + string) :=
  match e with
  | [] => ([], inl "no entropy")
  | salt :: e' =>
      match auth.HashPassword kdf saltLen salt password with
      | inl _ => (e', inl "hashing failed")
      | inr h => (e', inr h)
      end
  end.

Definition world0 : World UUID Time error Store Env :=
  {| store := ([], []); env := ["NaCl"; "KCl."]; trace := [] |}.

(** Seventy-one times the two bytes [0xC3 0xA9], the UTF-8 encoding of
    U+00E9 (e with acute accent). *)
Definition eAcute : string :=
  String (toByte 0xC3) (String (toByte 0xA9) EmptyString).

Definition body71 : string := repeatString 71 eAcute.

End InMemory.

(* ================================================================== *)
(** ** [apiConfig] and the other handlers of [newServer] (src/main.go) *)

(** Go's conversion [int32(x)]: [atomic.Int32] wraps around. *)
Definition int32 (z : Z) : Z := (z + 2 ^ 31) mod 2 ^ 32 - 2 ^ 31.

(** The status codes of package [net/http] that the handlers name. *)
Module http.

Definition StatusOK : Z := 200.
Definition StatusUnauthorized : Z := 401.
Definition StatusForbidden : Z := 403.

End http.

(** The line feed that ends the answer of [POST /admin/reset]. *)
Definition metricsResetMessage : string :=
  "Metrics reset" ++ String (toByte 10) EmptyString.

Section Server.

(** [Request] is [*http.Request] as far as a wrapped handler reads it. *)
Variables UUID Time error Store Request : Type.

(** [apiConfig]: the hit counter, the query layer's database and the
    platform name.  The counter is an [atomic.Int32]; requests are taken
    one after the other here. *)
Record apiConfig : Type := {
  fileserverHits : Z;
  db : Store;
  platform : string
}.

(** The rest of the query layer, [auth.CheckHashedPassword],
    [uuid.Parse] and the method [Error] of Go's [error].  A query that
    the handler reads after ignoring its error gives both, as in Go. *)
Variable DeleteUsers : Store -> Store * option error.
Variable GetChirps : Store -> Store * (error + list (Chirp UUID Time)).
Variable GetChirpByID : Store -> UUID -> Store * (error + Chirp UUID Time).
Variable GetUserByEmail :
  Store -> NullString -> Store * (User UUID Time * option error).
Variable CheckHashedPassword : string -> string -> bool * option error.
Variable uuid_Parse : string -> error + UUID.
Variable Error : error -> string.

(** What these handlers do, in order: the effects the two handlers
    above have too, writes of plain bytes, of the metrics page with the
    count it prints and of a JSON list, and the calls they make. *)
Inductive action : Type :=
| Did (e : effect UUID Time error)
| WriteBytes (s : string)
| WriteMetricsPage (hits : Z)
| WriteList (l : list (payload UUID Time))
| CallDeleteUsers
| CallGetChirps
| CallGetChirpByID (id : UUID)
| CallGetUserByEmail (email : NullString)
| CallCheckHashedPassword (password hash : string).

(** A handler takes the configuration and gives it back, with what it
    did. *)
Definition Handler : Type := apiConfig -> apiConfig * list action.

Definition withDb (cfg : apiConfig) (st : Store) : apiConfig :=
  {| fileserverHits := fileserverHits cfg; db := st;
     platform := platform cfg |}.

(** [cfg.fileserverHits.Add(1)], then the wrapped handler. *)
Definition middlewareMetricsInc (next : Request -> Handler) (r : Request)
  : Handler :=
  fun cfg =>
    next r {| fileserverHits := int32 (fileserverHits cfg + 1);
              db := db cfg; platform := platform cfg |}.

(** [cfg.fileserverHits.Store(0)]. *)
Definition resetMetrics (cfg : apiConfig) : apiConfig :=
  {| fileserverHits := 0; db := db cfg; platform := platform cfg |}.

(** [GET /api/healthz]. *)
Definition getHealthz : Handler :=
  fun cfg =>
    (cfg, [Did (SetHeader "Content-Type" "text/plain; charset=utf-8");
           Did (WriteHeader http.StatusOK);
           WriteBytes "OK"]).

(** [GET /admin/metrics]. *)
Definition getMetrics : Handler :=
  fun cfg =>
    (cfg, [Did (SetHeader "Content-Type" "text/html; charset=utf-8");
           Did (WriteHeader http.StatusOK);
           WriteMetricsPage (fileserverHits cfg)]).

(** [POST /admin/reset]. *)
Definition postReset : Handler :=
  fun cfg =>
    if negb (platform cfg =? "dev")%string then
      (cfg, [Did (WriteHeader http.StatusForbidden)])
    else
      let cfg1 := resetMetrics cfg in
      let '(st, err) := DeleteUsers (db cfg1) in
      match err with
      | Some _ => (withDb cfg1 st, [CallDeleteUsers; Did (WriteHeader 500)])
      | None =>
          (withDb cfg1 st, [CallDeleteUsers; WriteBytes metricsResetMessage])
      end.

(** One iteration of the loop of [GET /api/chirps]:
    [chirpResp = append(chirpResp, chirp{...})]. *)
Definition appendChirp (chirpResp_ : list (payload UUID Time))
  (c : Chirp UUID Time) : list (payload UUID Time) :=
  chirpResp_ ++ [chirpResp (chirp_ID c) (chirp_CreatedAt c)
                           (chirp_UpdatedAt c) (String_ (chirp_Body c))
                           (chirp_UserID c)].

(** [GET /api/chirps]. *)
Definition getChirps : Handler :=
  fun cfg =>
    let '(st, res) := GetChirps (db cfg) in
    match res with
    | inl err =>
        (withDb cfg st,
         [CallGetChirps; Did contentTypeJSON; Did (Print err);
          Did (WriteHeader 500)])
    | inr chirps =>
        let chirpResp_ := fold_left appendChirp chirps [] in
        (withDb cfg st,
         [CallGetChirps; Did contentTypeJSON; Did (WriteHeader 200);
          WriteList chirpResp_])
    end.

(** [GET /api/chirps/{chirpId}]; [chirpId] is [r.PathValue("chirpId")].
    On a malformed id the handler writes the message first and the
    status after it. *)
Definition getChirpByID (chirpId : string) : Handler :=
  fun cfg =>
    match uuid_Parse chirpId with
    | inl err =>
        (cfg, [Did contentTypeJSON; Did (Print err); WriteBytes (Error err);
               Did (WriteHeader 500)])
    | inr chirpUUId =>
        let '(st, res) := GetChirpByID (db cfg) chirpUUId in
        match res with
        | inl err =>
            (withDb cfg st,
             [Did contentTypeJSON; CallGetChirpByID chirpUUId;
              Did (Print err); Did (WriteHeader 404);
              WriteBytes (Error err)])
        | inr chirp =>
            (withDb cfg st,
             [Did contentTypeJSON; CallGetChirpByID chirpUUId;
              Did (WriteHeader 200);
              Did (Write (chirpResp (chirp_ID chirp)
                                    (chirp_CreatedAt chirp)
                                    (chirp_UpdatedAt chirp)
                                    (String_ (chirp_Body chirp))
                                    (chirp_UserID chirp)))])
        end
    end.

(** [POST /api/login].  The errors of [GetUserByEmail] and of
    [CheckHashedPassword] are assigned and not read. *)
Definition postLogin (decoded : error + userParameters) : Handler :=
  fun cfg =>
    match decoded with
    | inl err =>
        (cfg, [Did contentTypeJSON; Did (Print err); Did (WriteHeader 500)])
    | inr params =>
        let key := {| String_ := Email params;
                      Valid := negb (Email params =? "")%string |} in
        let '(st, (user, _)) := GetUserByEmail (db cfg) key in
        let '(match_, _) :=
          CheckHashedPassword (Password params) (user_HashedPassword user) in
        if negb match_ then
          (withDb cfg st,
           [Did contentTypeJSON; CallGetUserByEmail key;
            CallCheckHashedPassword (Password params)
                                    (user_HashedPassword user);
            Did (WriteHeader http.StatusUnauthorized)])
        else
          (withDb cfg st,
           [Did contentTypeJSON; CallGetUserByEmail key;
            CallCheckHashedPassword (Password params)
                                    (user_HashedPassword user);
            Did (Write (userResp (user_ID user) (user_CreatedAt user)
                                 (user_UpdatedAt user)
                                 (String_ (user_Email user))));
            Did (WriteHeader http.StatusOK)])
    end.

(** The status line that [net/http] sends for what a handler did: the
    code of the first [WriteHeader]; a write that comes before any
    [WriteHeader] sends 200, and a [WriteHeader] after that is ignored.
    [None]: the handler wrote nothing. *)
Fixpoint responseStatus (t : list action) : option Z :=
  match t with
  | [] => None
  | Did (WriteHeader code) :: _ => Some code
  | Did (Write _) :: _ => Some 200
  | WriteBytes _ :: _ => Some 200
  | WriteMetricsPage _ :: _ => Some 200
  | WriteList _ :: _ => Some 200
  | _ :: t' => responseStatus t'
  end.

(** The writes to the response body, in order. *)
Fixpoint responseBody (t : list action) : list action :=
  match t with
  | [] => []
  | Did (Write dat) :: t' => Did (Write dat) :: responseBody t'
  | WriteBytes s :: t' => WriteBytes s :: responseBody t'
  | WriteMetricsPage n :: t' => WriteMetricsPage n :: responseBody t'
  | WriteList l :: t' => WriteList l :: responseBody t'
  | _ :: t' => responseBody t'
  end.

(** The queries a handler sent to the database, in order. *)
Fixpoint databaseCalls (t : list action) : list action :=
  match t with
  | [] => []
  | Did (CallCreateChirp arg) :: t' =>
      Did (CallCreateChirp arg) :: databaseCalls t'
  | Did (CallCreateUser arg) :: t' =>
      Did (CallCreateUser arg) :: databaseCalls t'
  | CallDeleteUsers :: t' => CallDeleteUsers :: databaseCalls t'
  | CallGetChirps :: t' => CallGetChirps :: databaseCalls t'
  | CallGetChirpByID id :: t' => CallGetChirpByID id :: databaseCalls t'
  | CallGetUserByEmail k :: t' => CallGetUserByEmail k :: databaseCalls t'
  | _ :: t' => databaseCalls t'
  end.

(** Requests served one after the other by one handler: the
    configuration is handed on, what was done is put in a row. *)
Fixpoint serveAll (h : Request -> Handler) (reqs : list Request)
  (cfg : apiConfig) : apiConfig * list action :=
  match reqs with
  | [] => (cfg, [])
  | r :: reqs' =>
      let '(cfg1, out1) := h r cfg in
      let '(cfg2, out2) := serveAll h reqs' cfg1 in
      (cfg2, (out1 ++ out2)%list)
  end.

End Server.

Arguments fileserverHits {Store} _.
Arguments db {Store} _.
Arguments platform {Store} _.
Arguments Did {UUID Time error} e.
Arguments WriteBytes {UUID Time error} s.
Arguments WriteMetricsPage {UUID Time error} hits.
Arguments WriteList {UUID Time error} l.
Arguments CallDeleteUsers {UUID Time error}.
Arguments CallGetChirps {UUID Time error}.
Arguments CallGetChirpByID {UUID Time error} id.
Arguments CallGetUserByEmail {UUID Time error} email.
Arguments CallCheckHashedPassword {UUID Time error} password hash.
Arguments withDb {Store} cfg st.
Arguments middlewareMetricsInc {UUID Time error Store Request} next r _.
Arguments resetMetrics {Store} cfg.
Arguments getHealthz UUID Time error {Store} _.
Arguments getMetrics UUID Time error {Store} _.
Arguments postReset UUID Time {error Store} DeleteUsers _.
Arguments appendChirp {UUID Time} chirpResp_ c.
Arguments getChirps {UUID Time error Store} GetChirps _.
Arguments getChirpByID {UUID Time error Store} GetChirpByID uuid_Parse Error
  chirpId _.
Arguments postLogin {UUID Time error Store} GetUserByEmail CheckHashedPassword
  decoded _.
Arguments responseStatus {UUID Time error} t.
Arguments responseBody {UUID Time error} t.
Arguments databaseCalls {UUID Time error} t.
Arguments serveAll {UUID Time error Store Request} h reqs cfg.

(** Stand-ins for the rest of the query layer and for the wrapped file
    server, over the tables of [InMemory]. *)
Module InMemoryServer.

Definition Request : Type := string.

Definition noRows : InMemory.error := "sql: no rows in result set".

(** The handler behind [/app/]: it answers with the path asked for. *)
Definition fileServer (r : Request)
  : Handler InMemory.UUID InMemory.Time InMemory.error InMemory.Store :=
  fun cfg => (cfg, [Did (WriteHeader 200); WriteBytes r]).

(** Deleting the users deletes their chirps with them. *)
Definition DeleteUsers (st : InMemory.Store)
  : InMemory.Store * option InMemory.error :=
  (([], []), None).

Definition GetChirps (st : InMemory.Store)
  : InMemory.Store
    * (InMemory.error + list (Chirp InMemory.UUID InMemory.Time)) :=
  (st, inr (fst st)).

Definition GetChirpByID (st : InMemory.Store) (id : InMemory.UUID)
  : InMemory.Store * (InMemory.error + Chirp InMemory.UUID InMemory.Time) :=
  (st, match find (fun c => Nat.eqb (chirp_ID c) id) (fst st) with
       | Some c => inr c
       | None => inl noRows
       end).

Definition sameEmail (a b : NullString) : bool :=
  Bool.eqb (Valid a) (Valid b) && (String_ a =? String_ b)%string.

Definition zeroUser : User InMemory.UUID InMemory.Time :=
  {| user_ID := 0%nat; user_CreatedAt := 0%nat; user_UpdatedAt := 0%nat;
     user_Email := {| String_ := ""; Valid := false |};
     user_HashedPassword := "" |}.

Definition GetUserByEmail (st : InMemory.Store) (email : NullString)
  : InMemory.Store
    * (User InMemory.UUID InMemory.Time * option InMemory.error) :=
  (st, match find (fun u => sameEmail (user_Email u) email) (snd st) with
       | Some u => (u, None)
       | None => (zeroUser, Some noRows)
       end).

Definition CheckHashedPassword (password hash : string)
  : bool * option InMemory.error :=
  let '(matched, err) :=
    auth.CheckHashedPassword InMemory.kdf InMemory.saltLen password hash in
  (matched, option_map (fun _ => "malformed hash") err).

(** Identifiers are written in decimal digits. *)
Fixpoint parseDigits (acc : nat) (s : string) : option nat :=
  match s with
  | EmptyString => Some acc
  | String c s' =>
      let d := byteZ c - byteZ "0" in
      if (0 <=? d) && (d <=? 9)
      then parseDigits (10 * acc + Z.to_nat d) s'
      else None
  end.

Definition uuid_Parse (s : string) : InMemory.error + InMemory.UUID :=
  match s with
  | EmptyString => inl "invalid UUID length: 0"
  | _ => match parseDigits 0 s with
         | Some n => inr n
         | None => inl "invalid UUID format"
         end
  end.

Definition Error (e : InMemory.error) : string := e.

(** A configuration with one user, one chirp and 41 hits. *)
Definition cfg0 (platform_ : string) : apiConfig InMemory.Store :=
  {| fileserverHits := 41;
     db := ([{| chirp_ID := 5%nat; chirp_CreatedAt := 1%nat;
                chirp_UpdatedAt := 1%nat;
                chirp_Body := {| String_ := "hello"; Valid := true |};
                chirp_UserID := 3%nat |}],
            [{| user_ID := 3%nat; user_CreatedAt := 0%nat;
                user_UpdatedAt := 0%nat;
                user_Email := {| String_ := "a@b.c"; Valid := true |};
                user_HashedPassword := "NaCl2retnuh:lCaN" |}]);
     platform := platform_ |}.

End InMemoryServer.

(* ================================================================== *)
(** * Properties *)

(** ** Strings *)

Lemma append_empty_r (s : string) : s ++ "" = s.
Proof. induction s as [|c s IH]; simpl; [reflexivity | now rewrite IH]. Qed.

Lemma append_assoc (a b c : string) : (a ++ b) ++ c = a ++ (b ++ c).
Proof. induction a as [|x a IH]; simpl; [reflexivity | now rewrite IH]. Qed.

Lemma length_append (a b : string) :
  String.length (a ++ b) = (String.length a + String.length b)%nat.
Proof. induction a as [|x a IH]; simpl; [reflexivity | now rewrite IH]. Qed.

Lemma allBytes_append (p : ascii -> bool) (a b : string) :
  strings.allBytes p (a ++ b) = strings.allBytes p a && strings.allBytes p b.
Proof.
  induction a as [|x a IH]; simpl; [reflexivity|].
  now rewrite IH, andb_assoc.
Qed.

Lemma anyByte_append (p : ascii -> bool) (a b : string) :
  strings.anyByte p (a ++ b) = strings.anyByte p a || strings.anyByte p b.
Proof.
  induction a as [|x a IH]; simpl; [reflexivity|].
  now rewrite IH, orb_assoc.
Qed.

(** ** [strings.Split] and [strings.Join] on the separator of [sanitize] *)

Lemma HasPrefix_space (c : ascii) (s : string) :
  strings.HasPrefix (String c s) " " = Ascii.eqb c " ".
Proof.
  unfold strings.HasPrefix. cbn [String.prefix].
  destruct (ascii_dec " " c) as [Heq|Hne].
  - subst c. destruct s; reflexivity.
  - symmetry; apply Ascii.eqb_neq; congruence.
Qed.

(** The equation of [Split] at the separator [" "]. *)
Lemma Split_space_cons (c : ascii) (s : string) :
  strings.Split (String c s) " " =
  if Ascii.eqb c " " then "" :: strings.Split s " "
  else match strings.Split s " " with
       | t :: ts => String c t :: ts
       | [] => [String c ""]
       end.
Proof.
  unfold strings.Split at 1.
  cbn [strings.genSplit]. rewrite HasPrefix_space. reflexivity.
Qed.

Lemma Split_nonempty (s : string) : strings.Split s " " <> [].
Proof.
  destruct s as [|c s]; [discriminate|].
  rewrite Split_space_cons.
  destruct (Ascii.eqb c " "); [discriminate|].
  destruct (strings.Split s " "); discriminate.
Qed.

Lemma Join_cons2 (e e' : string) (rest : list string) (sep : string) :
  strings.Join (e :: e' :: rest) sep = e ++ sep ++ strings.Join (e' :: rest) sep.
Proof. reflexivity. Qed.

Lemma Join_cons_nonempty (e : string) (rest : list string) (sep : string) :
  rest <> [] ->
  strings.Join (e :: rest) sep = e ++ sep ++ strings.Join rest sep.
Proof. destruct rest; [congruence | reflexivity]. Qed.

(** Joining what [Split] cut gives the string back. *)
Lemma Join_Split (s : string) : strings.Join (strings.Split s " ") " " = s.
Proof.
  induction s as [|c s IH]; [reflexivity|].
  rewrite Split_space_cons.
  destruct (Ascii.eqb_spec c " ") as [->|Hc].
  - rewrite Join_cons_nonempty by apply Split_nonempty.
    now rewrite IH.
  - pose proof (Split_nonempty s) as Hne.
    destruct (strings.Split s " ") as [|t ts]; [congruence|].
    destruct ts as [|t' ts]; simpl in *; now rewrite <- IH.
Qed.

Lemma noSpace_cons (c : ascii) (t : string) :
  noSpace (String c t) = negb (Ascii.eqb c " ") && noSpace t.
Proof.
  unfold noSpace. cbn [strings.anyByte].
  now rewrite negb_orb, (Ascii.eqb_sym " " c).
Qed.

(** No token that [Split] returns holds a space. *)
Lemma Split_noSpace (s : string) :
  Forall (fun t => noSpace t = true) (strings.Split s " ").
Proof.
  induction s as [|c s IH]; [repeat constructor|].
  rewrite Split_space_cons.
  destruct (Ascii.eqb c " ") eqn:Hc.
  - constructor; [reflexivity | exact IH].
  - destruct (strings.Split s " ") as [|t ts].
    + constructor; [|constructor].
      rewrite noSpace_cons, Hc. reflexivity.
    + inversion IH as [|? ? Ht Hts]; subst.
      constructor; [|exact Hts].
      rewrite noSpace_cons, Hc, Ht. reflexivity.
Qed.

(** A token without a space, followed by a space, is cut off whole. *)
Lemma Split_token_space (t r : string) :
  noSpace t = true ->
  strings.Split (t ++ String " " r) " " = t :: strings.Split r " ".
Proof.
  induction t as [|c t IH]; intros Ht.
  - simpl. now rewrite Split_space_cons.
  - rewrite noSpace_cons in Ht. apply andb_prop in Ht as [Hc Ht].
    apply negb_true_iff in Hc.
    simpl. rewrite Split_space_cons, Hc.
    rewrite IH by exact Ht. reflexivity.
Qed.

Lemma Split_token (t : string) :
  noSpace t = true -> strings.Split t " " = [t].
Proof.
  induction t as [|c t IH]; intros Ht; [reflexivity|].
  rewrite noSpace_cons in Ht. apply andb_prop in Ht as [Hc Ht].
  apply negb_true_iff in Hc.
  rewrite Split_space_cons, Hc.
  now rewrite IH.
Qed.

(** Splitting what was joined from tokens without spaces gives the
    tokens back. *)
Lemma Split_Join (ts : list string) :
  ts <> [] ->
  Forall (fun t => noSpace t = true) ts ->
  strings.Split (strings.Join ts " ") " " = ts.
Proof.
  induction ts as [|t ts IH]; intros Hne Hall; [congruence|].
  inversion Hall as [|? ? Ht Hts]; subst.
  destruct ts as [|t' ts].
  - simpl. now apply Split_token.
  - rewrite Join_cons2.
    change (" " ++ strings.Join (t' :: ts) " ")
      with (String " " (strings.Join (t' :: ts) " ")).
    rewrite Split_token_space by exact Ht.
    rewrite IH; [reflexivity | discriminate | exact Hts].
Qed.

(** [Split] cuts at every space: a space in the middle separates the
    tokens on its left from the tokens on its right. *)
Lemma Split_append_space (a c : string) :
  strings.Split (a ++ String " " c) " " =
  (strings.Split a " " ++ strings.Split c " ")%list.
Proof.
  induction a as [|x a IH].
  - simpl. now rewrite Split_space_cons.
  - simpl. rewrite !Split_space_cons, IH.
    destruct (Ascii.eqb x " "); [reflexivity|].
    pose proof (Split_nonempty a) as Hne.
    destruct (strings.Split a " "); [congruence | reflexivity].
Qed.

Lemma Join_append (l1 l2 : list string) (sep : string) :
  l1 <> [] -> l2 <> [] ->
  strings.Join (l1 ++ l2) sep =
  strings.Join l1 sep ++ sep ++ strings.Join l2 sep.
Proof.
  induction l1 as [|e l1 IH]; intros H1 H2; [congruence|].
  destruct l1 as [|e' l1].
  - simpl app. now rewrite Join_cons_nonempty.
  - change ((e :: e' :: l1) ++ l2)%list with (e :: e' :: (l1 ++ l2)%list).
    rewrite !Join_cons2.
    change (e' :: (l1 ++ l2)%list) with ((e' :: l1) ++ l2)%list.
    rewrite IH by (discriminate || assumption).
    now rewrite !append_assoc.
Qed.

(** ** [strings.Trim] *)

Lemma trimLeftASCII_split (s cutset : string) :
  exists l : string,
    s = l ++ strings.trimLeftASCII s cutset
    /\ strings.allBytes (strings.contains cutset) l = true.
Proof.
  induction s as [|c s [l [Hs Hl]]]; [exists ""; split; reflexivity|].
  cbn [strings.trimLeftASCII].
  destruct (strings.contains cutset c) eqn:Hc.
  - exists (String c l). split.
    + simpl. now rewrite <- Hs.
    + simpl. now rewrite Hc, Hl.
  - exists "". split; reflexivity.
Qed.

Lemma trimRightASCII_split (s cutset : string) :
  exists r : string,
    s = strings.trimRightASCII s cutset ++ r
    /\ strings.allBytes (strings.contains cutset) r = true.
Proof.
  induction s as [|c s [r [Hs Hr]]]; [exists ""; split; reflexivity|].
  cbn [strings.trimRightASCII].
  destruct (strings.trimRightASCII s cutset) as [|d t] eqn:Ht.
  - simpl in Hs. subst r.
    destruct (strings.contains cutset c) eqn:Hc.
    + exists (String c s). split; [reflexivity|].
      simpl. now rewrite Hc, Hr.
    + exists s. split; [reflexivity | exact Hr].
  - exists r. split; [|exact Hr].
    simpl. simpl in Hs. now rewrite <- Hs.
Qed.

Lemma startsIn_trimLeftASCII (s cutset : string) :
  startsIn cutset (strings.trimLeftASCII s cutset) = false.
Proof.
  induction s as [|c s IH]; [reflexivity|].
  cbn [strings.trimLeftASCII].
  destruct (strings.contains cutset c) eqn:Hc; [exact IH | exact Hc].
Qed.

Lemma endsIn_trimRightASCII (s cutset : string) :
  endsIn cutset (strings.trimRightASCII s cutset) = false.
Proof.
  induction s as [|c s IH]; [reflexivity|].
  cbn [strings.trimRightASCII].
  destruct (strings.trimRightASCII s cutset) as [|d t] eqn:Ht.
  - destruct (strings.contains cutset c) eqn:Hc; [reflexivity | exact Hc].
  - exact IH.
Qed.

Lemma endsIn_trimLeftASCII (s cutset : string) :
  endsIn cutset s = false ->
  endsIn cutset (strings.trimLeftASCII s cutset) = false.
Proof.
  induction s as [|c s IH]; intros Hs; [reflexivity|].
  cbn [strings.trimLeftASCII].
  destruct (strings.contains cutset c) eqn:Hc; [|exact Hs].
  apply IH. destruct s; [reflexivity | exact Hs].
Qed.

Lemma startsIn_nil_cutset (s : string) : startsIn "" s = false.
Proof. destruct s; reflexivity. Qed.

Lemma endsIn_nil_cutset (s : string) : endsIn "" s = false.
Proof.
  induction s as [|c s IH]; [reflexivity|].
  destruct s; [reflexivity | exact IH].
Qed.

(** [Trim] removes a run of cutset bytes at each end and leaves a string
    that neither begins nor ends with a cutset byte. *)
Lemma Trim_spec (v cutset : string) :
  exists l r : string,
    v = l ++ strings.Trim v cutset ++ r
    /\ strings.allBytes (strings.contains cutset) l = true
    /\ strings.allBytes (strings.contains cutset) r = true
    /\ startsIn cutset (strings.Trim v cutset) = false
    /\ endsIn cutset (strings.Trim v cutset) = false.
Proof.
  unfold strings.Trim.
  destruct (String.eqb_spec v "") as [->|Hv].
  - exists "", "". repeat split; reflexivity.
  - destruct (String.eqb_spec cutset "") as [->|Hcut]; cbn [orb].
    + exists "", "". rewrite append_empty_r.
      repeat split; auto using startsIn_nil_cutset, endsIn_nil_cutset.
    + destruct (trimRightASCII_split v cutset) as [r [Hr Hr']].
      destruct (trimLeftASCII_split (strings.trimRightASCII v cutset) cutset)
        as [l [Hl Hl']].
      exists l, r. repeat split; auto.
      * rewrite <- append_assoc, <- Hl. exact Hr.
      * apply startsIn_trimLeftASCII.
      * apply endsIn_trimLeftASCII, endsIn_trimRightASCII.
Qed.

Lemma length_trimLeftASCII (s cutset : string) :
  (String.length (strings.trimLeftASCII s cutset) <= String.length s)%nat.
Proof.
  destruct (trimLeftASCII_split s cutset) as [l [Hl _]].
  rewrite Hl at 2. rewrite length_append. lia.
Qed.

Lemma length_trimRightASCII (s cutset : string) :
  (String.length (strings.trimRightASCII s cutset) <= String.length s)%nat.
Proof.
  destruct (trimRightASCII_split s cutset) as [r [Hr _]].
  rewrite Hr at 2. rewrite length_append. lia.
Qed.

Lemma length_Trim (s cutset : string) :
  (String.length (strings.Trim s cutset) <= String.length s)%nat.
Proof.
  destruct (Trim_spec s cutset) as [l [r [H _]]].
  rewrite H at 2. rewrite !length_append. lia.
Qed.

(** ** [sanitize], token by token *)

Section SanitizerFacts.

Variable tbl : Z -> Z.

Lemma isBadWord_maskToken (v : string) :
  maskToken tbl v = if isBadWord tbl v then "****" else v.
Proof. reflexivity. Qed.

(** The loop of [sanitize] appends the fate of each token, in order. *)
Lemma fold_sanitizeStep (l acc : list string) :
  fold_left (sanitizeStep tbl) l acc = (acc ++ map (maskToken tbl) l)%list.
Proof.
  revert acc. induction l as [|v l IH]; intros acc; simpl.
  - now rewrite app_nil_r.
  - rewrite IH. unfold sanitizeStep. rewrite isBadWord_maskToken.
    destruct (isBadWord tbl v); now rewrite <- app_assoc.
Qed.

Lemma sanitize_sanitizeSpec (s : string) : sanitize tbl s = sanitizeSpec tbl s.
Proof.
  unfold sanitize, sanitizeSpec. now rewrite fold_sanitizeStep.
Qed.

(** The mask is not a blacklisted word. *)
Lemma isBadWord_mask : isBadWord tbl "****" = false.
Proof. reflexivity. Qed.

Lemma isBadWord_maskToken_false (v : string) :
  isBadWord tbl (maskToken tbl v) = false.
Proof.
  rewrite isBadWord_maskToken.
  destruct (isBadWord tbl v) eqn:Hv; [apply isBadWord_mask | exact Hv].
Qed.

Lemma maskToken_idempotent (v : string) :
  maskToken tbl (maskToken tbl v) = maskToken tbl v.
Proof.
  rewrite (isBadWord_maskToken (maskToken tbl v)).
  now rewrite isBadWord_maskToken_false.
Qed.

Lemma maskToken_noSpace (v : string) :
  noSpace v = true -> noSpace (maskToken tbl v) = true.
Proof.
  intros Hv. rewrite isBadWord_maskToken.
  destruct (isBadWord tbl v); [reflexivity | exact Hv].
Qed.

Lemma maskToken_empty_iff (v : string) : maskToken tbl v = "" <-> v = "".
Proof.
  rewrite isBadWord_maskToken. split.
  - destruct (isBadWord tbl v); [discriminate | auto].
  - intros ->. reflexivity.
Qed.

Lemma maskToken_cases (v : string) :
  maskToken tbl v = v \/ maskToken tbl v = "****".
Proof.
  rewrite isBadWord_maskToken. destruct (isBadWord tbl v); auto.
Qed.

(** Splitting the output of [sanitize] gives the input's tokens, each
    after its fate. *)
Lemma Split_sanitize (s : string) :
  strings.Split (sanitize tbl s) " " =
  map (maskToken tbl) (strings.Split s " ").
Proof.
  rewrite sanitize_sanitizeSpec. unfold sanitizeSpec.
  apply Split_Join.
  - pose proof (Split_nonempty s).
    destruct (strings.Split s " "); [congruence | discriminate].
  - pose proof (Split_noSpace s) as H.
    induction H as [|t ts Ht _ IH]; constructor; auto using maskToken_noSpace.
Qed.

(** C1: [sanitize] cuts its input at every space (the tokens hold no
    space and joined with spaces give the input back); of each token it
    strips the bytes [. , ! ?] at both ends, lowers the rest and looks it
    up in the blacklist; a token found there is replaced whole by
    [****], any other token is output as it is.  So ["Kerfuffle!"] and
    ["Kerfuffle"] become ["****"], and ["Kerfuffles"] stays. *)
Theorem sanitize_masks_blacklisted_tokens (s : string) :
  let toks := strings.Split s " " in
  (strings.Join toks " " = s /\ Forall (fun t => noSpace t = true) toks)
  /\ (forall v : string, exists l r : string,
        v = l ++ strings.Trim v ".,!?" ++ r
        /\ strings.allBytes (strings.contains ".,!?") l = true
        /\ strings.allBytes (strings.contains ".,!?") r = true
        /\ startsIn ".,!?" (strings.Trim v ".,!?") = false
        /\ endsIn ".,!?" (strings.Trim v ".,!?") = false)
  /\ sanitize tbl s =
     strings.Join
       (map (fun v =>
               if slices.Contains ["kerfuffle"; "sharbert"; "fornax"]
                    (strings.ToLower tbl (strings.Trim v ".,!?"))
               then "****" else v) toks) " "
  /\ sanitize tbl "Kerfuffle!" = "****"
  /\ sanitize tbl "Kerfuffle" = "****"
  /\ sanitize tbl "Kerfuffles" = "Kerfuffles".
Proof.
  cbv zeta. split; [split|split; [|split; [|repeat split]]].
  - apply Join_Split.
  - apply Split_noSpace.
  - intros v. apply Trim_spec.
  - apply sanitize_sanitizeSpec.
Qed.

(** C4: [sanitize] is idempotent. *)
Theorem sanitize_idempotent (x : string) :
  sanitize tbl (sanitize tbl x) = sanitize tbl x.
Proof.
  rewrite (sanitize_sanitizeSpec (sanitize tbl x)).
  unfold sanitizeSpec. rewrite Split_sanitize.
  rewrite map_map.
  rewrite (map_ext _ _ maskToken_idempotent).
  symmetry. apply sanitize_sanitizeSpec.
Qed.

(** C9: the output of [sanitize] has as many space-separated tokens as
    the input, and its token at each position is the input's token at
    that position or the mask. *)
Theorem sanitize_preserves_token_structure (s : string) :
  let ins := strings.Split s " " in
  let outs := strings.Split (sanitize tbl s) " " in
  List.length outs = List.length ins
  /\ forall i : nat, (i < List.length ins)%nat ->
       nth i outs "" = nth i ins "" \/ nth i outs "" = "****".
Proof.
  cbv zeta. rewrite Split_sanitize. split.
  - apply length_map.
  - intros i Hi.
    rewrite (nth_indep _ "" (maskToken tbl ""))
      by (now rewrite length_map).
    rewrite map_nth. apply maskToken_cases.
Qed.

(** C10: no token of the output of [sanitize] is blacklisted once its
    punctuation is trimmed and it is lowered. *)
Theorem sanitize_output_has_no_bad_word (s t : string) :
  In t (strings.Split (sanitize tbl s) " ") ->
  slices.Contains ["kerfuffle"; "sharbert"; "fornax"]
    (strings.ToLower tbl (strings.Trim t ".,!?")) = false.
Proof.
  rewrite Split_sanitize. intros Hin.
  apply in_map_iff in Hin as [v [<- _]].
  apply isBadWord_maskToken_false.
Qed.

End SanitizerFacts.

(** ** Bytes and the UTF-8 encoder *)

Lemma byteZ_toByte (z : Z) : byteZ (toByte z) = z mod 256.
Proof.
  unfold byteZ, toByte.
  assert (H : 0 <= z mod 256 < 256) by (apply Z.mod_pos_bound; lia).
  rewrite N_ascii_embedding by lia.
  apply Z2N.id; lia.
Qed.

(** A byte built by or-ing onto a marker with its top bit set is not an
    ASCII byte. *)
Lemma lor_marker_high (marker x : Z) :
  Z.testbit marker 7 = true -> 128 <= (Z.lor marker x) mod 256.
Proof.
  intros Hm.
  assert (Hb : 0 <= (Z.lor marker x) mod 256 < 256)
    by (apply Z.mod_pos_bound; lia).
  assert (Ht : Z.testbit ((Z.lor marker x) mod 2 ^ 8) 7 = true).
  { rewrite Z.mod_pow2_bits_low by lia.
    now rewrite Z.lor_spec, Hm. }
  change (2 ^ 8) with 256 in Ht.
  apply Z.testbit_true in Ht; [|lia].
  change (2 ^ 7) with 128 in Ht.
  destruct (Z_lt_le_dec ((Z.lor marker x) mod 256) 128) as [Hlt|Hge];
    [|exact Hge].
  rewrite Z.div_small in Ht by lia. discriminate.
Qed.

Lemma isASCII_marker (marker x : Z) (rest : string) :
  Z.testbit marker 7 = true ->
  isASCII (String (toByte (Z.lor marker x)) rest) = false.
Proof.
  intros Hm. unfold isASCII. cbn [strings.allBytes].
  rewrite byteZ_toByte.
  pose proof (lor_marker_high marker x Hm) as H.
  unfold utf8.RuneSelf.
  destruct (Z.ltb_spec ((Z.lor marker x) mod 256) 128); [lia | reflexivity].
Qed.

(** An encoding made of ASCII bytes is one byte long. *)
Lemma AppendRune_ascii_length (r : Z) :
  isASCII (utf8.AppendRune r) = true ->
  String.length (utf8.AppendRune r) = 1%nat.
Proof.
  unfold utf8.AppendRune.
  destruct ((0 <=? r) && (r <=? utf8.rune1Max)); [reflexivity|].
  destruct ((0 <=? r) && (r <=? utf8.rune2Max)).
  { rewrite isASCII_marker by reflexivity. discriminate. }
  destruct ((r <? 0) || (utf8.MaxRune <? r)
            || ((utf8.surrogateMin <=? r) && (r <=? utf8.surrogateMax))).
  { rewrite isASCII_marker by reflexivity. discriminate. }
  destruct (r <=? utf8.rune3Max);
    rewrite isASCII_marker by reflexivity; discriminate.
Qed.

(** ** The rune loop and [strings.Map] *)

Lemma DecodeRuneInString_width_pos (c : ascii) (s : string) :
  (1 <= snd (utf8.DecodeRuneInString (String c s)))%nat.
Proof.
  unfold utf8.DecodeRuneInString.
  cbn [String.length Nat.ltb Nat.leb].
  repeat match goal with
         | |- context [if ?b then _ else _] => destruct b
         end; simpl; lia.
Qed.

Lemma length_rangeFrom (s : string) (skip : nat) :
  (List.length (utf8.rangeFrom skip s) <= String.length s)%nat.
Proof.
  revert skip. induction s as [|c s IH]; intros skip; [simpl; lia|].
  cbn [utf8.rangeFrom].
  destruct skip as [|k].
  - destruct (utf8.DecodeRuneInString (String c s)) as [r w].
    simpl. specialize (IH (Nat.pred w)). lia.
  - simpl. specialize (IH k). lia.
Qed.

Lemma length_sliceFrom (n : nat) (s : string) :
  (String.length (strings.sliceFrom n s) <= String.length s - n)%nat.
Proof.
  revert s. induction n as [|n IH]; intros s.
  - simpl. lia.
  - destruct s as [|c s]; simpl; [lia | apply IH].
Qed.

Section MapFacts.

Variable mapping : Z -> Z.

Lemma writeMapped_ascii_length (c : Z) :
  isASCII (strings.writeMapped mapping c) = true ->
  (String.length (strings.writeMapped mapping c) <= 1)%nat.
Proof.
  unfold strings.writeMapped.
  destruct (mapping c >=? 0); intros H.
  - rewrite AppendRune_ascii_length by exact H. lia.
  - simpl. lia.
Qed.

Lemma mapRest_ascii_length (runes : list Z) :
  isASCII (strings.mapRest mapping runes) = true ->
  (String.length (strings.mapRest mapping runes) <= List.length runes)%nat.
Proof.
  induction runes as [|c cs IH]; intros H; [simpl; lia|].
  cbn [strings.mapRest] in *.
  unfold isASCII in H. rewrite allBytes_append in H.
  apply andb_prop in H as [Hc Hcs].
  rewrite length_append.
  pose proof (writeMapped_ascii_length c Hc).
  specialize (IH Hcs). simpl. lia.
Qed.

(** When [Map] rewrites its input into ASCII bytes, it does not make it
    longer: each rune it reads takes at least one byte and gives at most
    one. *)
Lemma mapScan_ascii_length (s : string) :
  forall (skip : nat) (out : string),
    strings.mapScan mapping skip s = Some out ->
    isASCII out = true ->
    (String.length out <= String.length s)%nat.
Proof.
  induction s as [|c0 s IH]; intros skip out Hscan Hout; [discriminate|].
  cbn [strings.mapScan] in Hscan.
  assert (Hcopy : forall k,
             option_map (String c0) (strings.mapScan mapping k s) = Some out ->
             (String.length out <= S (String.length s))%nat).
  { intros k Hk.
    destruct (strings.mapScan mapping k s) as [out'|] eqn:Hk';
      [|discriminate].
    injection Hk as <-.
    unfold isASCII in Hout. cbn [strings.allBytes] in Hout.
    apply andb_prop in Hout as [_ Hout].
    specialize (IH k out' Hk' Hout). simpl. lia. }
  destruct skip as [|k]; [|now apply (Hcopy k)].
  pose proof (DecodeRuneInString_width_pos c0 s) as Hw.
  destruct (utf8.DecodeRuneInString (String c0 s)) as [c width].
  cbn [snd] in Hw.
  destruct ((mapping c =? c)
            && (negb (c =? utf8.RuneError) || negb (width =? 1)%nat));
    [now apply (Hcopy (Nat.pred width))|].
  injection Hscan as <-.
  unfold isASCII in Hout. rewrite allBytes_append in Hout.
  apply andb_prop in Hout as [Hc Hrest].
  rewrite length_append.
  pose proof (writeMapped_ascii_length c Hc) as H1.
  pose proof (mapRest_ascii_length _ Hrest) as H2.
  pose proof (length_rangeFrom (strings.sliceFrom width (String c0 s)) 0) as H3.
  pose proof (length_sliceFrom width (String c0 s)) as H4.
  unfold utf8.range in *. cbn [String.length] in *. lia.
Qed.

Lemma Map_ascii_length (s : string) :
  isASCII (strings.Map mapping s) = true ->
  (String.length (strings.Map mapping s) <= String.length s)%nat.
Proof.
  unfold strings.Map.
  destruct (strings.mapScan mapping 0 s) as [out|] eqn:Hscan; intros H.
  - now apply (mapScan_ascii_length s 0).
  - lia.
Qed.

End MapFacts.

Lemma length_mapBytes (f : ascii -> ascii) (s : string) :
  String.length (strings.mapBytes f s) = String.length s.
Proof. induction s as [|c s IH]; simpl; [reflexivity | now rewrite IH]. Qed.

(** A lowered string made of ASCII bytes is no longer than the string
    it comes from. *)
Lemma ToLower_ascii_length (tbl : Z -> Z) (s : string) :
  isASCII (strings.ToLower tbl s) = true ->
  (String.length (strings.ToLower tbl s) <= String.length s)%nat.
Proof.
  unfold strings.ToLower.
  destruct (strings.allBytes (fun c => byteZ c <? utf8.RuneSelf) s).
  - destruct (negb _); intros _; [lia|].
    rewrite length_mapBytes. lia.
  - apply Map_ascii_length.
Qed.

(** ** Lengths and spaces through [sanitize] *)

Section SanitizerLengths.

Variable tbl : Z -> Z.

(** A blacklisted word is made of ASCII bytes, six of them at least. *)
Lemma Contains_badWords (clean : string) :
  slices.Contains badWords clean = true ->
  isASCII clean = true /\ (6 <= String.length clean)%nat.
Proof.
  unfold slices.Contains, badWords. cbn [existsb].
  intros H.
  repeat (apply orb_prop in H as [H|H];
          [apply String.eqb_eq in H; subst clean; split;
           [reflexivity | simpl; lia] |]).
  discriminate.
Qed.

(** A token that [sanitize] masks is at least as long as the mask. *)
Lemma isBadWord_length (v : string) :
  isBadWord tbl v = true -> (6 <= String.length v)%nat.
Proof.
  unfold isBadWord. intros H.
  apply Contains_badWords in H as [Hascii Hlen].
  pose proof (ToLower_ascii_length tbl _ Hascii).
  pose proof (length_Trim v ".,!?"). lia.
Qed.

(** Masking a token takes at least two bytes away; any other token
    keeps its length. *)
Lemma length_maskToken (v : string) :
  (String.length (maskToken tbl v) + (if isBadWord tbl v then 2 else 0)
   <= String.length v)%nat.
Proof.
  rewrite isBadWord_maskToken.
  destruct (isBadWord tbl v) eqn:Hv; [|lia].
  apply isBadWord_length in Hv. simpl. lia.
Qed.

(** The output is shorter than the input by two bytes at least for each
    token masked. *)
Lemma length_Join_masked (l : list string) :
  (String.length (strings.Join (map (maskToken tbl) l) " ")
   + 2 * List.length (filter (isBadWord tbl) l)
   <= String.length (strings.Join l " "))%nat.
Proof.
  induction l as [|e l IH]; [simpl; lia|].
  pose proof (length_maskToken e) as He.
  destruct l as [|e' l].
  - cbn [map filter strings.Join].
    destruct (isBadWord tbl e); simpl List.length; lia.
  - cbn [map] in *. rewrite !Join_cons2, !length_append.
    cbn [filter] in *.
    destruct (isBadWord tbl e); cbn [List.length] in *; lia.
Qed.

Lemma existsb_filter_length {A : Type} (p : A -> bool) (l : list A) :
  existsb p l = true -> (1 <= List.length (filter p l))%nat.
Proof.
  induction l as [|a l IH]; [discriminate|].
  cbn [existsb filter]. destruct (p a); simpl; [lia | exact IH].
Qed.

Lemma map_maskToken_unmasked (l : list string) :
  forallb (fun v => negb (isBadWord tbl v)) l = true ->
  map (maskToken tbl) l = l.
Proof.
  induction l as [|v l IH]; intros H; [reflexivity|].
  cbn [forallb] in H. apply andb_prop in H as [Hv Hl].
  apply negb_true_iff in Hv.
  cbn [map]. rewrite IH by exact Hl.
  now rewrite isBadWord_maskToken, Hv.
Qed.

(** [sanitize] works on each side of a space on its own. *)
Lemma sanitize_append_space (a c : string) :
  sanitize tbl (a ++ String " " c) =
  sanitize tbl a ++ String " " (sanitize tbl c).
Proof.
  rewrite !sanitize_sanitizeSpec. unfold sanitizeSpec.
  rewrite Split_append_space, map_app.
  assert (Hne : forall s, map (maskToken tbl) (strings.Split s " ") <> []).
  { intros s. pose proof (Split_nonempty s).
    destruct (strings.Split s " "); [congruence | discriminate]. }
  rewrite Join_append by apply Hne. reflexivity.
Qed.

(** A run of spaces in the input is a run of spaces in the output, and
    the output has no other. *)
Lemma hasSpaceRun_sanitize (x : string) :
  hasSpaceRun x <-> hasSpaceRun (sanitize tbl x).
Proof.
  unfold hasSpaceRun. split.
  - intros [a [b ->]].
    exists (sanitize tbl a), (sanitize tbl b).
    change (a ++ "  " ++ b) with (a ++ String " " (String " " b)).
    rewrite sanitize_append_space.
    change (String " " b) with ("" ++ String " " b).
    rewrite sanitize_append_space. reflexivity.
  - intros [a [b Hab]].
    pose proof (Split_sanitize tbl x) as Hsp.
    rewrite Hab in Hsp.
    change (a ++ "  " ++ b) with (a ++ String " " (String " " b)) in Hsp.
    rewrite Split_append_space, Split_space_cons in Hsp.
    cbn [Ascii.eqb Bool.eqb] in Hsp.
    symmetry in Hsp.
    apply map_eq_app in Hsp as [l1 [l2 [Hx [H1 H2]]]].
    destruct l2 as [|v l2]; [discriminate|].
    cbn [map] in H2. injection H2 as Hv H2.
    apply maskToken_empty_iff in Hv. subst v.
    assert (Hl1 : l1 <> []).
    { intros ->. symmetry in H1. now apply Split_nonempty in H1. }
    assert (Hl2 : l2 <> []).
    { intros ->. symmetry in H2. now apply Split_nonempty in H2. }
    exists (strings.Join l1 " "), (strings.Join l2 " ").
    rewrite <- (Join_Split x), Hx.
    rewrite Join_append by (assumption || discriminate).
    rewrite Join_cons_nonempty by assumption.
    reflexivity.
Qed.

(** C5, amended: [sanitize] cuts at every single space and joins with
    single spaces, so consecutive spaces do not collapse: they give empty
    tokens, which are kept.  The output has a run of spaces exactly when
    the input has one, and as many tokens (so as many spaces) as the
    input. *)
Theorem sanitize_keeps_space_runs (x : string) :
  (hasSpaceRun x <-> hasSpaceRun (sanitize tbl x))
  /\ List.length (strings.Split (sanitize tbl x) " ")
     = List.length (strings.Split x " ").
Proof.
  split.
  - apply hasSpaceRun_sanitize.
  - rewrite Split_sanitize. apply length_map.
Qed.

(** C6, amended: [sanitize] never makes its input longer.  It leaves
    the input as it is, length included, when it masks no token, and
    makes it shorter when it masks one: the mask has four bytes, a
    masked token six at least. *)
Theorem sanitize_never_lengthens (x : string) :
  (String.length (sanitize tbl x) <= String.length x)%nat
  /\ (forallb (fun v => negb (isBadWord tbl v)) (strings.Split x " ") = true ->
      sanitize tbl x = x)
  /\ (existsb (isBadWord tbl) (strings.Split x " ") = true ->
      (String.length (sanitize tbl x) < String.length x)%nat).
Proof.
  rewrite sanitize_sanitizeSpec. unfold sanitizeSpec.
  pose proof (length_Join_masked (strings.Split x " ")) as Hlen.
  rewrite (Join_Split x) in Hlen.
  split; [lia | split].
  - intros H. rewrite map_maskToken_unmasked by exact H.
    apply Join_Split.
  - intros H. apply existsb_filter_length in H. lia.
Qed.

End SanitizerLengths.

(** C5 as the spec words it fails: the two spaces of ["a  b"] are still
    there in the output, and no input at all loses a run of spaces. *)
Lemma sanitize_collapses_spaces_counterexample :
  sanitize InMemory.To_LowerCase "a  b" = "a  b"
  /\ ~ (exists x : string,
          hasSpaceRun x /\ ~ hasSpaceRun (sanitize InMemory.To_LowerCase x)).
Proof.
  split; [reflexivity|].
  intros [x [Hx Hnot]]. apply Hnot.
  now apply hasSpaceRun_sanitize.
Qed.

(** C6 as the spec words it fails: ["kerfuffle"] has nine bytes, the
    mask that replaces it four. *)
Lemma sanitize_preserves_length_counterexample :
  String.length (sanitize InMemory.To_LowerCase "kerfuffle") = 4%nat
  /\ String.length "kerfuffle" = 9%nat
  /\ String.length (sanitize InMemory.To_LowerCase "kerfuffle")
     <> String.length "kerfuffle".
Proof. repeat split. discriminate. Qed.

(** ** The handlers *)

Section HandlerFacts.

Variable tbl : Z -> Z.
Variables UUID Time error Store Env : Type.
Variable CreateChirp :
  Store -> CreateChirpParams UUID -> Store * (error + Chirp UUID Time).
Variable CreateUser :
  Store -> CreateUserParams -> Store * (error + User UUID Time).
Variable HashPassword : Env -> string -> Env * (error + string).

Lemma createChirpCalls_app (t1 t2 : list (effect UUID Time error)) :
  createChirpCalls (t1 ++ t2) = (createChirpCalls t1 ++ createChirpCalls t2)%list.
Proof.
  induction t1 as [|e t1 IH]; [reflexivity|].
  destruct e; simpl; now rewrite IH.
Qed.

Lemma createUserCalls_app (t1 t2 : list (effect UUID Time error)) :
  createUserCalls (t1 ++ t2) = (createUserCalls t1 ++ createUserCalls t2)%list.
Proof.
  induction t1 as [|e t1 IH]; [reflexivity|].
  destruct e; simpl; now rewrite IH.
Qed.

(** The path of [POST /api/chirps] through the guard
    [len(params.Body) > 140]. *)
Lemma postChirps_too_long
  (params : chirpParameters UUID) (w : World UUID Time error Store Env) :
  (140 < String.length (Body params))%nat ->
  postChirps tbl CreateChirp (inr params) w =
  (tt, {| store := store w; env := env w;
          trace := (trace w ++ contentTypeJSON :: tooLongResponse)%list |}).
Proof.
  intros Hlen. apply Nat.ltb_lt in Hlen.
  unfold postChirps, bind, emit. cbn [store env trace].
  rewrite Hlen. cbn [store env trace].
  unfold tooLongResponse, contentTypeJSON.
  now rewrite <- !app_assoc.
Qed.

(** The path of [POST /api/chirps] past the guard: one call of
    [CreateChirp] with the sanitized body, then 500 or 201. *)
Lemma postChirps_short
  (params : chirpParameters UUID) (w : World UUID Time error Store Env) :
  (String.length (Body params) <= 140)%nat ->
  postChirps tbl CreateChirp (inr params) w =
  let arg := {| ccp_Body := {| String_ := sanitize tbl (Body params);
                               Valid := true |};
                ccp_UserID := UserId params |} in
  let '(st, res) := CreateChirp (store w) arg in
  (tt, {| store := st; env := env w;
          trace := (trace w ++ contentTypeJSON :: CallCreateChirp arg ::
                      match res with
                      | inl err => [Print err; WriteHeader 500]
                      | inr chirp =>
                          [WriteHeader 201;
                           Write (chirpResp (chirp_ID chirp)
                                            (chirp_CreatedAt chirp)
                                            (chirp_UpdatedAt chirp)
                                            (String_ (chirp_Body chirp))
                                            (chirp_UserID chirp))]
                      end)%list |}).
Proof.
  intros Hlen.
  assert (Hguard : (140 <? String.length (Body params))%nat = false)
    by (apply Nat.ltb_ge; exact Hlen).
  unfold postChirps, bind, emit, db_CreateChirp. cbn [store env trace].
  rewrite Hguard. cbn [store env trace]. cbv zeta.
  destruct (CreateChirp (store w) _) as [st [err|chirp]];
    cbn [store env trace]; unfold contentTypeJSON;
    now rewrite <- !app_assoc.
Qed.

(** C2, amended: the body is rejected as too long, with status 400,
    exactly when it is longer than 140 BYTES ([len] of a Go string counts
    bytes): a body of 140 bytes or fewer, the empty one too, is passed on,
    a body of 141 bytes is rejected. *)
Theorem chirp_rejected_iff_over_140_bytes
  (st : Store) (e : Env) (params : chirpParameters UUID) :
  let w' := snd (postChirps tbl CreateChirp (inr params)
                   {| store := st; env := e; trace := [] |}) in
  (trace w' = contentTypeJSON :: tooLongResponse
   <-> (140 < String.length (Body params))%nat)
  /\ (statusOf (trace w') = Some 400
      <-> (140 < String.length (Body params))%nat).
Proof.
  cbv zeta.
  destruct (Nat.lt_ge_cases 140 (String.length (Body params))) as [Hlong|Hshort].
  - rewrite postChirps_too_long by exact Hlong. cbn [snd trace app].
    split; split; auto.
  - rewrite postChirps_short by exact Hshort. cbv zeta.
    destruct (CreateChirp _ _) as [st' [err|chirp]]; cbn [snd trace app];
      (split; split; [discriminate | lia | discriminate | lia]).
Qed.

(** C8: a body over the limit is answered with 400 and nothing else
    happens: [CreateChirp] is not called and the store is as it was. *)
Theorem too_long_chirp_is_not_stored
  (params : chirpParameters UUID) (w : World UUID Time error Store Env) :
  (140 < String.length (Body params))%nat ->
  let w' := snd (postChirps tbl CreateChirp (inr params) w) in
  store w' = store w
  /\ createChirpCalls (trace w') = createChirpCalls (trace w)
  /\ trace w' = (trace w ++ contentTypeJSON :: tooLongResponse)%list
  /\ statusOf (contentTypeJSON :: @tooLongResponse UUID Time error) = Some 400.
Proof.
  intros Hlong. cbv zeta.
  rewrite postChirps_too_long by exact Hlong. cbn [snd store trace].
  repeat split.
  rewrite createChirpCalls_app. simpl. apply app_nil_r.
Qed.

(** C7: when [POST /api/users] reaches [CreateUser], the email it
    passes is marked absent ([Valid] false) exactly when the decoded
    email is the empty string, and carries the decoded string as it is,
    whatever it holds. *)
Theorem email_absent_iff_empty
  (params : userParameters) (w : World UUID Time error Store Env)
  (e' : Env) (hPassword : string) :
  HashPassword (env w) (Password params) = (e', inr hPassword) ->
  let w' := snd (postUsers CreateUser HashPassword (inr params) w) in
  exists arg : CreateUserParams,
    createUserCalls (trace w') = (createUserCalls (trace w) ++ [arg])%list
    /\ String_ (cup_Email arg) = Email params
    /\ (Valid (cup_Email arg) = false <-> Email params = "")
    /\ (Valid (cup_Email arg) = true <-> Email params <> "").
Proof.
  intros Hhash. cbv zeta.
  exists {| cup_Email := {| String_ := Email params;
                            Valid := negb (Email params =? "")%string |};
            cup_HashedPassword := hPassword |}.
  split; [|cbn [cup_Email String_ Valid]; split; [reflexivity|]].
  - unfold postUsers, bind, auth_HashPassword, db_CreateUser, emit.
    rewrite Hhash. cbn [store env trace].
    destruct (CreateUser (store w) _) as [st [err|user]];
      cbn [snd store env trace];
      rewrite !createUserCalls_app; simpl;
      now rewrite !app_nil_r.
  - destruct (String.eqb_spec (Email params) "") as [Heq|Hne]; cbn [negb];
      split; split; (congruence || discriminate || auto).
Qed.

End HandlerFacts.

(** C2 as the spec words it fails: a body of 71 characters, each two
    bytes long, is rejected as too long. *)
Lemma chirp_of_71_characters_rejected_counterexample :
  utf8.RuneCountInString InMemory.body71 = 71%nat
  /\ String.length InMemory.body71 = 142%nat
  /\ trace (snd (postChirps InMemory.To_LowerCase InMemory.CreateChirp
                   (inr {| Body := InMemory.body71; UserId := 7%nat |})
                   InMemory.world0))
     = contentTypeJSON :: tooLongResponse.
Proof. repeat split. Qed.

(** ** The credential check *)

Lemma substring_append_prefix (a b : string) :
  String.substring 0 (String.length a) (a ++ b) = a.
Proof.
  induction a as [|c a IH]; simpl.
  - destruct b; reflexivity.
  - now rewrite IH.
Qed.

Lemma sliceFrom_append (a b : string) :
  strings.sliceFrom (String.length a) (a ++ b) = b.
Proof. induction a as [|c a IH]; simpl; [reflexivity | exact IH]. Qed.

Section CredentialFacts.

Variable kdf : string -> string -> string.
Variable saltLen : nat.

(** C3: a password verifies against the hash that [HashPassword] made
    of it, whatever the password and whatever salt was drawn. *)
Theorem CheckHashedPassword_accepts_own_hash (salt P h : string) :
  auth.HashPassword kdf saltLen salt P = inr h ->
  auth.CheckHashedPassword kdf saltLen P h = (true, None).
Proof.
  unfold auth.HashPassword, auth.CheckHashedPassword.
  destruct (Nat.eqb_spec (String.length salt) saltLen) as [Hlen|Hlen];
    [|discriminate].
  intros Hh. injection Hh as <-. subst saltLen.
  assert (Hfits : (String.length (salt ++ kdf salt P) <? String.length salt)%nat
                  = false)
    by (apply Nat.ltb_ge; rewrite length_append; lia).
  rewrite Hfits, substring_append_prefix, sliceFrom_append.
  now rewrite String.eqb_refl.
Qed.

End CredentialFacts.

(** ** The theorems at work on concrete inputs *)

Lemma CheckHashedPassword_accepts_own_hash_witness :
  auth.HashPassword InMemory.kdf InMemory.saltLen "NaCl" "hunter2"
  = inr "NaCl2retnuh:lCaN"
  /\ auth.CheckHashedPassword InMemory.kdf InMemory.saltLen
       "hunter2" "NaCl2retnuh:lCaN" = (true, None).
Proof.
  split; [reflexivity|].
  apply (CheckHashedPassword_accepts_own_hash
           InMemory.kdf InMemory.saltLen "NaCl" "hunter2").
  reflexivity.
Defined.

Lemma sanitize_output_has_no_bad_word_witness :
  In "****" (strings.Split (sanitize InMemory.To_LowerCase "I had a kerfuffle") " ")
  /\ slices.Contains ["kerfuffle"; "sharbert"; "fornax"]
       (strings.ToLower InMemory.To_LowerCase (strings.Trim "****" ".,!?"))
     = false.
Proof.
  assert (H : In "****" (strings.Split
                           (sanitize InMemory.To_LowerCase "I had a kerfuffle")
                           " ")).
  { vm_compute. auto. }
  split; [exact H|].
  exact (sanitize_output_has_no_bad_word
           InMemory.To_LowerCase "I had a kerfuffle" "****" H).
Defined.

Lemma too_long_chirp_is_not_stored_witness :
  let params := {| Body := repeatString 141 "a"; UserId := 7%nat |} in
  (140 < String.length (Body params))%nat
  /\ store (snd (postChirps InMemory.To_LowerCase InMemory.CreateChirp
                   (inr params) InMemory.world0))
     = store InMemory.world0.
Proof.
  cbv zeta. split; [vm_compute; lia|].
  apply (too_long_chirp_is_not_stored
           InMemory.To_LowerCase InMemory.UUID InMemory.Time InMemory.error
           InMemory.Store InMemory.Env InMemory.CreateChirp
           {| Body := repeatString 141 "a"; UserId := 7%nat |}
           InMemory.world0).
  vm_compute; lia.
Defined.

Lemma email_absent_iff_empty_witness :
  let params := {| Email := ""; Password := "hunter2" |} in
  InMemory.HashPassword (env InMemory.world0) (Password params)
  = (["KCl."], inr "NaCl2retnuh:lCaN")
  /\ exists arg : CreateUserParams,
       createUserCalls
         (trace (snd (postUsers InMemory.CreateUser InMemory.HashPassword
                        (inr params) InMemory.world0)))
       = (createUserCalls (trace InMemory.world0) ++ [arg])%list
       /\ String_ (cup_Email arg) = ""
       /\ (Valid (cup_Email arg) = false <-> "" = "")
       /\ (Valid (cup_Email arg) = true <-> "" <> "").
Proof.
  cbv zeta. split; [reflexivity|].
  apply (email_absent_iff_empty
           InMemory.UUID InMemory.Time InMemory.error
           InMemory.Store InMemory.Env InMemory.CreateUser
           InMemory.HashPassword
           {| Email := ""; Password := "hunter2" |}
           InMemory.world0 ["KCl."] "NaCl2retnuh:lCaN").
  reflexivity.
Defined.

(** ** The embedding at work on concrete inputs *)

Example Split_keeps_empty_tokens :
  strings.Split "a  b c " " " = ["a"; ""; "b"; "c"; ""]
  /\ strings.Split "" " " = [""]
  /\ strings.Join ["a"; ""; "b"; "c"; ""] " " = "a  b c ".
Proof. repeat split. Qed.

Example Trim_both_ends :
  strings.Trim "..!Hi, there?!," ".,!?" = "Hi, there"
  /\ strings.Trim "?!" ".,!?" = ""
  /\ strings.Trim "a.b" ".,!?" = "a.b".
Proof. repeat split. Qed.

Example utf8_encoding_boundaries :
  map (fun r => utf8.range (utf8.AppendRune r))
      [0x7F; 0x80; 0x7FF; 0x800; 0xD7FF; 0xD800; 0xE000; 0xFFFF; 0x10000;
       0x10FFFF; 0x110000]
  = [[0x7F]; [0x80]; [0x7FF]; [0x800]; [0xD7FF]; [utf8.RuneError]; [0xE000];
     [0xFFFF]; [0x10000]; [0x10FFFF]; [utf8.RuneError]]
  /\ utf8.range (String (toByte 0xC0) (String (toByte 0x80) "a"))
     = [utf8.RuneError; utf8.RuneError; 0x61].
Proof. split; reflexivity. Qed.

(** The examples of the spec that no claim repeats, for any case table. *)
Example sanitize_spec_examples (tbl : Z -> Z) :
  sanitize tbl "" = ""
  /\ sanitize tbl "I had a kerfuffle" = "I had a ****"
  /\ sanitize tbl "What a Sharbert, FORNAX?! fornaxes" = "What a **** **** fornaxes".
Proof. repeat split. Qed.

(** Lowering goes through the case table outside ASCII: the Kelvin sign
    (U+212A, bytes E2 84 AA) lowers to [k], so a token that is spelled
    with it is masked as well. *)
Example sanitize_kelvin_sign :
  let kelvin := String (toByte 0xE2) (String (toByte 0x84)
                  (String (toByte 0xAA) "")) in
  strings.ToLower InMemory.To_LowerCase (kelvin ++ "ERFUFFLE") = "kerfuffle"
  /\ sanitize InMemory.To_LowerCase ("a " ++ kelvin ++ "erfuffle!") = "a ****".
Proof. split; reflexivity. Qed.

(** The bounds of the length check on ASCII bodies. *)
Example postChirps_140_and_141 :
  statusOf (trace (snd (postChirps InMemory.To_LowerCase InMemory.CreateChirp
                          (inr {| Body := repeatString 140 "a";
                                  UserId := 7%nat |})
                          InMemory.world0))) = Some 201
  /\ statusOf (trace (snd (postChirps InMemory.To_LowerCase InMemory.CreateChirp
                             (inr {| Body := repeatString 141 "a";
                                     UserId := 7%nat |})
                             InMemory.world0))) = Some 400
  /\ statusOf (trace (snd (postChirps InMemory.To_LowerCase InMemory.CreateChirp
                             (inr {| Body := ""; UserId := 7%nat |})
                             InMemory.world0))) = Some 201.
Proof. repeat split. Qed.

(* ================================================================== *)
(** * Further properties of the code *)

(** ** More on [sanitize] *)

(** The lowering of one ASCII byte, as in the loop of
    [strings.ToLower]. *)
Lemma ToLower_ascii (tbl : Z -> Z) (s : string) :
  isASCII s = true ->
  strings.ToLower tbl s =
  strings.mapBytes
    (fun c => if (byteZ "A" <=? byteZ c) && (byteZ c <=? byteZ "Z")
              then toByte (byteZ c + (byteZ "a" - byteZ "A"))
              else c) s.
Proof.
  intros Hs. unfold strings.ToLower. unfold isASCII in Hs. rewrite Hs.
  destruct (strings.anyByte _ s) eqn:Hup; [reflexivity|].
  cbn [negb]. clear Hs.
  induction s as [|c s IH]; [reflexivity|].
  cbn [strings.anyByte] in Hup. apply orb_false_elim in Hup as [Hc Hup].
  cbn [strings.mapBytes]. rewrite Hc, <- IH by exact Hup. reflexivity.
Qed.

Lemma mapBytes_empty_iff (f : ascii -> ascii) (s : string) :
  (strings.mapBytes f s =? "")%string = (s =? "")%string.
Proof. destruct s; reflexivity. Qed.

Section TrimMapBytes.

Variable f : ascii -> ascii.
Variable cutset : string.
Hypothesis f_cutset :
  forall c, strings.contains cutset (f c) = strings.contains cutset c.

Lemma trimLeftASCII_mapBytes (s : string) :
  strings.trimLeftASCII (strings.mapBytes f s) cutset =
  strings.mapBytes f (strings.trimLeftASCII s cutset).
Proof.
  induction s as [|c s IH]; [reflexivity|].
  cbn [strings.mapBytes strings.trimLeftASCII].
  rewrite f_cutset.
  destruct (strings.contains cutset c); [exact IH | reflexivity].
Qed.

Lemma trimRightASCII_mapBytes (s : string) :
  strings.trimRightASCII (strings.mapBytes f s) cutset =
  strings.mapBytes f (strings.trimRightASCII s cutset).
Proof.
  induction s as [|c s IH]; [reflexivity|].
  cbn [strings.mapBytes strings.trimRightASCII].
  rewrite IH, f_cutset.
  destruct (strings.trimRightASCII s cutset) as [|d t].
  - cbn [strings.mapBytes].
    destruct (strings.contains cutset c); reflexivity.
  - reflexivity.
Qed.

Lemma Trim_mapBytes (s : string) :
  strings.Trim (strings.mapBytes f s) cutset =
  strings.mapBytes f (strings.Trim s cutset).
Proof.
  unfold strings.Trim. rewrite mapBytes_empty_iff.
  destruct ((s =? "")%string || (cutset =? "")%string); [reflexivity|].
  now rewrite trimRightASCII_mapBytes, trimLeftASCII_mapBytes.
Qed.

End TrimMapBytes.

(** Lowering a byte does not move it into or out of the cutset of
    [sanitize]. *)
Lemma lower_byte_punctuation (c : ascii) :
  strings.contains ".,!?"
    (if (byteZ "A" <=? byteZ c) && (byteZ c <=? byteZ "Z")
     then toByte (byteZ c + (byteZ "a" - byteZ "A"))
     else c)
  = strings.contains ".,!?" c.
Proof.
  destruct c as [[] [] [] [] [] [] [] []]; reflexivity.
Qed.

Lemma isASCII_Trim (s cutset : string) :
  isASCII s = true -> isASCII (strings.Trim s cutset) = true.
Proof.
  intros Hs. destruct (Trim_spec s cutset) as [l [r [H _]]].
  rewrite H in Hs. unfold isASCII in *.
  rewrite !allBytes_append in Hs.
  apply andb_prop in Hs as [_ Hs]. now apply andb_prop in Hs as [Hs _].
Qed.

(** On an ASCII token, trimming and lowering can be done in either
    order. *)
Lemma ToLower_Trim_ascii (tbl : Z -> Z) (v : string) :
  isASCII v = true ->
  strings.ToLower tbl (strings.Trim v ".,!?") =
  strings.Trim (strings.ToLower tbl v) ".,!?".
Proof.
  intros Hv.
  rewrite (ToLower_ascii tbl v Hv).
  rewrite (ToLower_ascii tbl _ (isASCII_Trim v ".,!?" Hv)).
  symmetry. apply Trim_mapBytes. exact lower_byte_punctuation.
Qed.

Lemma trimLeftASCII_append (l s cutset : string) :
  strings.allBytes (strings.contains cutset) l = true ->
  strings.trimLeftASCII (l ++ s) cutset = strings.trimLeftASCII s cutset.
Proof.
  induction l as [|c l IH]; intros Hl; [reflexivity|].
  cbn [strings.allBytes] in Hl. apply andb_prop in Hl as [Hc Hl].
  simpl. rewrite Hc. now apply IH.
Qed.

Lemma trimRightASCII_all (r cutset : string) :
  strings.allBytes (strings.contains cutset) r = true ->
  strings.trimRightASCII r cutset = "".
Proof.
  induction r as [|c r IH]; intros Hr; [reflexivity|].
  cbn [strings.allBytes] in Hr. apply andb_prop in Hr as [Hc Hr].
  cbn [strings.trimRightASCII]. now rewrite IH, Hc.
Qed.

Lemma trimRightASCII_append (s r cutset : string) :
  strings.allBytes (strings.contains cutset) r = true ->
  strings.trimRightASCII (s ++ r) cutset = strings.trimRightASCII s cutset.
Proof.
  intros Hr. induction s as [|c s IH].
  - simpl. now apply trimRightASCII_all.
  - simpl. now rewrite IH.
Qed.

Lemma trimRightASCII_prepend (l s cutset : string) :
  strings.allBytes (strings.contains cutset) l = true ->
  strings.trimRightASCII (l ++ s) cutset =
  match strings.trimRightASCII s cutset with
  | EmptyString => EmptyString
  | t => l ++ t
  end.
Proof.
  induction l as [|c l IH]; intros Hl.
  - simpl. destruct (strings.trimRightASCII s cutset); reflexivity.
  - cbn [strings.allBytes] in Hl. apply andb_prop in Hl as [Hc Hl].
    simpl. rewrite IH by exact Hl.
    destruct (strings.trimRightASCII s cutset) as [|d t].
    + now rewrite Hc.
    + destruct l; reflexivity.
Qed.

(** Cutset bytes put around a string are trimmed away with the rest. *)
Lemma Trim_surrounded (l v r : string) :
  strings.allBytes (strings.contains ".,!?") l = true ->
  strings.allBytes (strings.contains ".,!?") r = true ->
  strings.Trim (l ++ v ++ r) ".,!?" = strings.Trim v ".,!?".
Proof.
  intros Hl Hr.
  assert (HT : forall s, strings.Trim s ".,!?" =
                         strings.trimLeftASCII
                           (strings.trimRightASCII s ".,!?") ".,!?").
  { intros s. unfold strings.Trim. destruct s; reflexivity. }
  rewrite !HT.
  rewrite <- append_assoc, trimRightASCII_append by exact Hr.
  rewrite trimRightASCII_prepend by exact Hl.
  destruct (strings.trimRightASCII v ".,!?") as [|d t]; [reflexivity|].
  now apply trimLeftASCII_append.
Qed.

Lemma Contains_In (l : list string) (v : string) :
  slices.Contains l v = true <-> In v l.
Proof.
  unfold slices.Contains. rewrite existsb_exists. split.
  - intros [x [Hin Heq]]. apply String.eqb_eq in Heq. now subst.
  - intros Hin. exists v. split; [exact Hin | apply String.eqb_refl].
Qed.

Section SanitizerMore.

Variable tbl : Z -> Z.

(** X1: [sanitize] goes through a join by spaces: sanitizing pieces
    joined with single spaces is joining the sanitized pieces, whatever
    the pieces hold. *)
Theorem sanitize_Join (ts : list string) :
  sanitize tbl (strings.Join ts " ") =
  strings.Join (map (sanitize tbl) ts) " ".
Proof.
  induction ts as [|t ts IH]; [reflexivity|].
  destruct ts as [|t' ts]; [reflexivity|].
  cbn [map] in *. rewrite !Join_cons2.
  change (" " ++ strings.Join (t' :: ts) " ")
    with (String " " (strings.Join (t' :: ts) " ")).
  rewrite sanitize_append_space, IH. reflexivity.
Qed.

(** X2: punctuation of the cutset put before and after a token does
    not change whether the token is masked. *)
Theorem isBadWord_ignores_punctuation (l v r : string) :
  strings.allBytes (strings.contains ".,!?") l = true ->
  strings.allBytes (strings.contains ".,!?") r = true ->
  isBadWord tbl (l ++ v ++ r) = isBadWord tbl v.
Proof.
  intros Hl Hr. unfold isBadWord. now rewrite Trim_surrounded.
Qed.

(** X3: the letter case of an ASCII token does not change whether it is
    masked: two ASCII tokens with the same lower-case form are both
    masked or both kept. *)
Theorem isBadWord_ignores_ascii_case (v w : string) :
  isASCII v = true -> isASCII w = true ->
  strings.ToLower tbl v = strings.ToLower tbl w ->
  isBadWord tbl v = isBadWord tbl w.
Proof.
  intros Hv Hw Heq. unfold isBadWord.
  now rewrite !ToLower_Trim_ascii, Heq by assumption.
Qed.

(** X4: an ASCII token is masked exactly when it is a word whose
    lower-case form is on the blacklist, with any run of cutset
    punctuation before it and after it. *)
Theorem isBadWord_ascii_iff (v : string) :
  isASCII v = true ->
  (isBadWord tbl v = true <->
   exists l w r : string,
     v = l ++ w ++ r
     /\ strings.allBytes (strings.contains ".,!?") l = true
     /\ strings.allBytes (strings.contains ".,!?") r = true
     /\ In (strings.ToLower tbl w) badWords).
Proof.
  intros Hv. split.
  - intros Hbad.
    destruct (Trim_spec v ".,!?") as [l [r [Heq [Hl [Hr _]]]]].
    exists l, (strings.Trim v ".,!?"), r.
    repeat split; try assumption.
    now apply Contains_In.
  - intros [l [w [r [-> [Hl [Hr Hin]]]]]].
    assert (Hw : isASCII w = true).
    { unfold isASCII in *. rewrite !allBytes_append in Hv.
      apply andb_prop in Hv as [_ Hv]. now apply andb_prop in Hv as [Hv _]. }
    unfold isBadWord. rewrite Trim_surrounded by assumption.
    rewrite ToLower_Trim_ascii by exact Hw.
    assert (Hclean : strings.Trim (strings.ToLower tbl w) ".,!?"
                     = strings.ToLower tbl w).
    { unfold badWords in Hin. cbn [In] in Hin.
      destruct Hin as [<-|[<-|[<-|[]]]]; reflexivity. }
    rewrite Hclean. now apply Contains_In.
Qed.

(** X5: [sanitize] gives its input back exactly when it masks no
    token: a masking always shows. *)
Theorem sanitize_fixed_iff_unmasked (x : string) :
  sanitize tbl x = x <->
  forallb (fun v => negb (isBadWord tbl v)) (strings.Split x " ") = true.
Proof.
  split.
  - intros Hfix.
    destruct (forallb _ (strings.Split x " ")) eqn:Hall; [reflexivity|].
    exfalso.
    assert (Hex : existsb (isBadWord tbl) (strings.Split x " ") = true).
    { clear Hfix. induction (strings.Split x " ") as [|v l IH];
        [discriminate|].
      cbn [forallb existsb] in *.
      destruct (isBadWord tbl v); [reflexivity|].
      cbn [negb andb orb] in *. now apply IH. }
    apply existsb_filter_length in Hex.
    pose proof (length_Join_masked tbl (strings.Split x " ")) as Hlen.
    rewrite (Join_Split x) in Hlen.
    change (strings.Join (map (maskToken tbl) (strings.Split x " ")) " ")
      with (sanitizeSpec tbl x) in Hlen.
    rewrite <- sanitize_sanitizeSpec, Hfix in Hlen. lia.
  - intros Hall. rewrite sanitize_sanitizeSpec. unfold sanitizeSpec.
    rewrite map_maskToken_unmasked by exact Hall. apply Join_Split.
Qed.

End SanitizerMore.

(** ** The hit counter *)

Lemma int32_range (z : Z) : - 2 ^ 31 <= int32 z < 2 ^ 31.
Proof.
  unfold int32.
  assert (H : 0 <= (z + 2 ^ 31) mod 2 ^ 32 < 2 ^ 32)
    by (apply Z.mod_pos_bound; lia).
  lia.
Qed.

Lemma int32_small (z : Z) : - 2 ^ 31 <= z < 2 ^ 31 -> int32 z = z.
Proof.
  intros Hz. unfold int32. rewrite Z.mod_small by lia. lia.
Qed.

Lemma int32_add (a b : Z) : int32 (int32 a + b) = int32 (a + b).
Proof.
  unfold int32. f_equal.
  replace ((a + 2 ^ 31) mod 2 ^ 32 - 2 ^ 31 + b + 2 ^ 31)
    with ((a + 2 ^ 31) mod 2 ^ 32 + b) by ring.
  rewrite Zplus_mod_idemp_l. f_equal. ring.
Qed.

Section ServerFacts.

Variables UUID Time error Store Request : Type.
Variable DeleteUsers : Store -> Store * option error.
Variable GetChirps : Store -> Store * (error + list (Chirp UUID Time)).
Variable GetChirpByID : Store -> UUID -> Store * (error + Chirp UUID Time).
Variable GetUserByEmail :
  Store -> NullString -> Store * (User UUID Time * option error).
Variable CheckHashedPassword : string -> string -> bool * option error.
Variable uuid_Parse : string -> error + UUID.
Variable Error : error -> string.

Lemma fst_serveAll_cons
  (h : Request -> Handler UUID Time error Store)
  (r : Request) (reqs : list Request) (cfg : apiConfig Store) :
  fst (serveAll h (r :: reqs) cfg) = fst (serveAll h reqs (fst (h r cfg))).
Proof.
  cbn [serveAll].
  destruct (h r cfg) as [cfg1 out1]. cbn [fst].
  destruct (serveAll h reqs cfg1) as [cfg2 out2]. reflexivity.
Qed.

Lemma hits_serveAll_middleware
  (next : Request -> Handler UUID Time error Store) :
  (forall r c, fileserverHits (fst (next r c)) = fileserverHits c) ->
  forall (reqs : list Request) (cfg : apiConfig Store),
    - 2 ^ 31 <= fileserverHits cfg < 2 ^ 31 ->
    fileserverHits (fst (serveAll (middlewareMetricsInc next) reqs cfg))
    = int32 (fileserverHits cfg + Z.of_nat (List.length reqs)).
Proof.
  intros Hnext reqs. induction reqs as [|r reqs IH]; intros cfg Hrange.
  - cbn [serveAll fst List.length Z.of_nat].
    rewrite Z.add_0_r. symmetry. now apply int32_small.
  - rewrite fst_serveAll_cons.
    assert (Hstep : fileserverHits (fst (middlewareMetricsInc next r cfg))
                    = int32 (fileserverHits cfg + 1)).
    { unfold middlewareMetricsInc. now rewrite Hnext. }
    rewrite IH by (rewrite Hstep; apply int32_range).
    rewrite Hstep, int32_add. f_equal.
    cbn [List.length]. lia.
Qed.

(** X6: requests that come through [middlewareMetricsInc] are counted
    one by one, in 32 bits: after [n] of them the counter holds its old
    value plus [n], wrapped around as an [int32], and so the exact sum
    as long as that stays below [2^31]. *)
Theorem middlewareMetricsInc_counts
  (next : Request -> Handler UUID Time error Store)
  (reqs : list Request) (cfg : apiConfig Store) :
  (forall r c, fileserverHits (fst (next r c)) = fileserverHits c) ->
  - 2 ^ 31 <= fileserverHits cfg < 2 ^ 31 ->
  let n := Z.of_nat (List.length reqs) in
  let cfg' := fst (serveAll (middlewareMetricsInc next) reqs cfg) in
  fileserverHits cfg' = int32 (fileserverHits cfg + n)
  /\ (fileserverHits cfg + n < 2 ^ 31 ->
      fileserverHits cfg' = fileserverHits cfg + n).
Proof.
  intros Hnext Hrange. cbv zeta.
  rewrite hits_serveAll_middleware by assumption.
  split; [reflexivity|].
  intros Hfit. apply int32_small. lia.
Qed.

(** X7: outside the platform ["dev"], [POST /admin/reset] answers 403
    and resets nothing: the counter and the database are as they were
    and [DeleteUsers] is not called. *)
Theorem postReset_forbidden_outside_dev (cfg : apiConfig Store) :
  platform cfg <> "dev" ->
  fst (postReset UUID Time DeleteUsers cfg) = cfg
  /\ databaseCalls (snd (postReset UUID Time DeleteUsers cfg)) = []
  /\ responseStatus (snd (postReset UUID Time DeleteUsers cfg)) = Some 403
  /\ responseBody (snd (postReset UUID Time DeleteUsers cfg)) = [].
Proof.
  intros Hp. apply String.eqb_neq in Hp.
  unfold postReset. rewrite Hp. cbn [negb fst snd].
  repeat split.
Qed.

(** X8: on the platform ["dev"], [POST /admin/reset] sets the counter
    to zero and calls [DeleteUsers] once; the counter is reset also when
    [DeleteUsers] fails, and the answer is 500 exactly then. *)
Theorem postReset_in_dev (cfg : apiConfig Store) :
  platform cfg = "dev" ->
  let cfg' := fst (postReset UUID Time DeleteUsers cfg) in
  let out := snd (postReset UUID Time DeleteUsers cfg) in
  fileserverHits cfg' = 0
  /\ db cfg' = fst (DeleteUsers (db cfg))
  /\ platform cfg' = "dev"
  /\ databaseCalls out = [CallDeleteUsers]
  /\ match snd (DeleteUsers (db cfg)) with
     | Some _ => responseStatus out = Some 500 /\ responseBody out = []
     | None => responseStatus out = Some 200
               /\ responseBody out = [WriteBytes metricsResetMessage]
     end.
Proof.
  intros Hp. cbv zeta. unfold postReset. rewrite Hp.
  cbn [String.eqb Ascii.eqb Bool.eqb negb resetMetrics db].
  destruct (DeleteUsers (db cfg)) as [st [err|]]; cbn [fst snd];
    repeat split; exact Hp.
Qed.

(** X9: after a reset on ["dev"], the metrics page shows the number of
    requests that came through the middleware since, as long as there
    were fewer than [2^31]; asking for the page does not count. *)
Theorem metrics_after_reset
  (next : Request -> Handler UUID Time error Store)
  (reqs : list Request) (cfg : apiConfig Store) :
  (forall r c, fileserverHits (fst (next r c)) = fileserverHits c) ->
  platform cfg = "dev" ->
  Z.of_nat (List.length reqs) < 2 ^ 31 ->
  let cfg1 := fst (postReset UUID Time DeleteUsers cfg) in
  let cfg2 := fst (serveAll (middlewareMetricsInc next) reqs cfg1) in
  responseBody (snd (getMetrics UUID Time error cfg2))
  = [WriteMetricsPage (Z.of_nat (List.length reqs))]
  /\ fst (getMetrics UUID Time error cfg2) = cfg2.
Proof.
  intros Hnext Hp Hn. cbv zeta.
  assert (H0 : fileserverHits (fst (postReset UUID Time DeleteUsers cfg)) = 0).
  { unfold postReset. rewrite Hp.
    cbn [String.eqb Ascii.eqb Bool.eqb negb resetMetrics db].
    destruct (DeleteUsers (db cfg)) as [st [err|]]; reflexivity. }
  split; [|reflexivity].
  unfold getMetrics. cbn [snd responseBody].
  rewrite hits_serveAll_middleware by (assumption || (rewrite H0; lia)).
  rewrite H0, int32_small by lia. reflexivity.
Qed.

Lemma fold_appendChirp (chirps : list (Chirp UUID Time))
  (acc : list (payload UUID Time)) :
  fold_left appendChirp chirps acc =
  (acc ++ map (fun c => chirpResp (chirp_ID c) (chirp_CreatedAt c)
                          (chirp_UpdatedAt c) (String_ (chirp_Body c))
                          (chirp_UserID c)) chirps)%list.
Proof.
  revert acc. induction chirps as [|c chirps IH]; intros acc; simpl.
  - now rewrite app_nil_r.
  - rewrite IH. unfold appendChirp. now rewrite <- app_assoc.
Qed.

(** X10: [GET /api/chirps] answers 200 with one entry for each chirp
    that [GetChirps] returned, in the same order, each with the chirp's
    own fields; when [GetChirps] fails it answers 500 with no body. *)
Theorem getChirps_lists_every_chirp_in_order (cfg : apiConfig Store) :
  let out := snd (getChirps GetChirps cfg) in
  databaseCalls out = [CallGetChirps]
  /\ match snd (GetChirps (db cfg)) with
     | inl _ => responseStatus out = Some 500 /\ responseBody out = []
     | inr chirps =>
         responseStatus out = Some 200
         /\ responseBody out =
            [WriteList
               (map (fun c => chirpResp (chirp_ID c) (chirp_CreatedAt c)
                                (chirp_UpdatedAt c) (String_ (chirp_Body c))
                                (chirp_UserID c)) chirps)]
     end.
Proof.
  cbv zeta. unfold getChirps.
  destruct (GetChirps (db cfg)) as [st [err|chirps]]; cbn [snd].
  - repeat split.
  - rewrite fold_appendChirp. repeat split.
Qed.

(** X11: a malformed chirp id is answered with status 200, not 500: the
    handler writes the parse error to the body before it calls
    [WriteHeader(500)], which comes too late to count.  The database is
    not asked. *)
Theorem getChirpByID_malformed_id_is_200
  (chirpId : string) (cfg : apiConfig Store) (err : error) :
  uuid_Parse chirpId = inl err ->
  let out := snd (getChirpByID GetChirpByID uuid_Parse Error chirpId cfg) in
  responseStatus out = Some 200
  /\ In (Did (WriteHeader 500)) out
  /\ responseBody out = [WriteBytes (Error err)]
  /\ databaseCalls out = []
  /\ fst (getChirpByID GetChirpByID uuid_Parse Error chirpId cfg) = cfg.
Proof.
  intros Hparse. cbv zeta. unfold getChirpByID. rewrite Hparse.
  cbn [fst snd]. repeat split. simpl. auto.
Qed.

(** X12: [GET /api/chirps/{chirpId}] answers 200 or 404 and nothing
    else: 404 exactly when the id parses and [GetChirpByID] fails, and
    200 with the chirp when it is found. *)
Theorem getChirpByID_status
  (chirpId : string) (cfg : apiConfig Store) :
  let out := snd (getChirpByID GetChirpByID uuid_Parse Error chirpId cfg) in
  (responseStatus out = Some 200 \/ responseStatus out = Some 404)
  /\ (responseStatus out = Some 404 <->
      exists id err,
        uuid_Parse chirpId = inr id
        /\ snd (GetChirpByID (db cfg) id) = inl err)
  /\ (forall id chirp,
        uuid_Parse chirpId = inr id ->
        snd (GetChirpByID (db cfg) id) = inr chirp ->
        responseBody out =
        [Did (Write (chirpResp (chirp_ID chirp) (chirp_CreatedAt chirp)
                               (chirp_UpdatedAt chirp)
                               (String_ (chirp_Body chirp))
                               (chirp_UserID chirp)))]).
Proof.
  cbv zeta. unfold getChirpByID.
  destruct (uuid_Parse chirpId) as [perr|id] eqn:Hparse.
  - cbn [snd responseStatus]. split; [now left|]. split.
    + split; [discriminate|]. intros [id [err [H _]]]. discriminate.
    + intros id chirp H. discriminate.
  - destruct (GetChirpByID (db cfg) id) as [st [err|chirp]] eqn:Hget;
      cbn [snd responseStatus responseBody].
    + split; [now right|]. split.
      * split; [|reflexivity]. intros _. exists id, err.
        split; [reflexivity | now rewrite Hget].
      * intros id' chirp' Hid. injection Hid as <-.
        rewrite Hget. discriminate.
    + split; [now left|]. split.
      * split; [discriminate|]. intros [id' [err [Hid Herr]]].
        injection Hid as <-. rewrite Hget in Herr. discriminate.
      * intros id' chirp' Hid. injection Hid as <-.
        rewrite Hget. cbn [snd]. intros Hc. injection Hc as <-.
        reflexivity.
Qed.

(** X13: [POST /api/login] is decided by the boolean of
    [CheckHashedPassword] alone.  When it is false the answer is 401
    with no body, the same whether the user was not found, the lookup
    failed or the password is wrong; when it is true the answer is 200
    with the user that the lookup gave.  The errors that the lookup and
    the check return change nothing.  A body that does not decode is
    answered 500 and nothing is looked up. *)
Theorem postLogin_decided_by_match
  (decoded : error + userParameters) (cfg : apiConfig Store) :
  let out := snd (postLogin GetUserByEmail CheckHashedPassword decoded cfg) in
  match decoded with
  | inl _ =>
      responseStatus out = Some 500 /\ responseBody out = []
      /\ databaseCalls out = []
  | inr params =>
      let key := {| String_ := Email params;
                    Valid := negb (Email params =? "")%string |} in
      let user := fst (snd (GetUserByEmail (db cfg) key)) in
      databaseCalls out = [CallGetUserByEmail key]
      /\ if fst (CheckHashedPassword (Password params)
                                     (user_HashedPassword user))
         then responseStatus out = Some 200
              /\ responseBody out =
                 [Did (Write (userResp (user_ID user) (user_CreatedAt user)
                                       (user_UpdatedAt user)
                                       (String_ (user_Email user))))]
         else responseStatus out = Some 401 /\ responseBody out = []
  end.
Proof.
  cbv zeta. unfold postLogin.
  destruct decoded as [err|params]; [repeat split|].
  destruct (GetUserByEmail (db cfg) _) as [st [user lookupErr]].
  cbn [fst snd].
  destruct (CheckHashedPassword _ _) as [[|] checkErr];
    cbn [fst snd negb]; repeat split.
Qed.

(** X14: [POST /api/login] looks the user up once, by the decoded
    email as it is; an empty email is looked up as SQL NULL ([Valid]
    false), any other as a present value. *)
Theorem postLogin_lookup_key
  (params : userParameters) (cfg : apiConfig Store) :
  exists key : NullString,
    databaseCalls
      (snd (postLogin GetUserByEmail CheckHashedPassword (inr params) cfg))
    = [CallGetUserByEmail key]
    /\ String_ key = Email params
    /\ (Valid key = false <-> Email params = "").
Proof.
  exists {| String_ := Email params;
            Valid := negb (Email params =? "")%string |}.
  split; [|split; [reflexivity|]].
  - unfold postLogin.
    destruct (GetUserByEmail (db cfg) _) as [st [user lookupErr]].
    destruct (CheckHashedPassword _ _) as [[|] checkErr]; reflexivity.
  - cbn [Valid].
    destruct (String.eqb_spec (Email params) "") as [Heq|Hne]; cbn [negb];
      split; (congruence || discriminate || auto).
Qed.

End ServerFacts.

(** ** More on [POST /api/chirps] and [POST /api/users] *)

Lemma length_sanitize_le (tbl : Z -> Z) (x : string) :
  (String.length (sanitize tbl x) <= String.length x)%nat.
Proof.
  rewrite sanitize_sanitizeSpec. unfold sanitizeSpec.
  pose proof (length_Join_masked tbl (strings.Split x " ")) as H.
  rewrite (Join_Split x) in H. lia.
Qed.

Lemma sanitize_tokens_clean (tbl : Z -> Z) (x t : string) :
  In t (strings.Split (sanitize tbl x) " ") -> isBadWord tbl t = false.
Proof.
  rewrite Split_sanitize. intros Hin.
  apply in_map_iff in Hin as [v [<- _]].
  apply isBadWord_maskToken_false.
Qed.

Section WritingHandlers.

Variable tbl : Z -> Z.
Variables UUID Time error Store Env : Type.
Variable CreateChirp :
  Store -> CreateChirpParams UUID -> Store * (error + Chirp UUID Time).
Variable CreateUser :
  Store -> CreateUserParams -> Store * (error + User UUID Time).
Variable HashPassword : Env -> string -> Env * (error + string).

(** [POST /api/chirps] on a body that did not decode. *)
Lemma postChirps_undecoded (err : error) (w : World UUID Time error Store Env) :
  postChirps tbl CreateChirp (inl err) w =
  (tt, {| store := store w; env := env w;
          trace := (trace w ++ [contentTypeJSON; Print err; WriteHeader 500;
                                Write (errResp "Something went wrong")])%list |}).
Proof.
  unfold postChirps, bind, emit. cbn [store env trace].
  unfold contentTypeJSON. now rewrite <- !app_assoc.
Qed.

(** X15: whatever [POST /api/chirps] hands to [CreateChirp] is the
    sanitized body of the request, marked present, for the user of the
    request: it is at most 140 bytes long and none of its tokens is a
    blacklisted word. *)
Theorem stored_chirp_is_short_and_clean
  (decoded : error + chirpParameters UUID) (st : Store) (e : Env)
  (arg : CreateChirpParams UUID) :
  In arg (createChirpCalls
            (trace (snd (postChirps tbl CreateChirp decoded
                           {| store := st; env := e; trace := [] |})))) ->
  exists params : chirpParameters UUID,
    decoded = inr params
    /\ ccp_UserID arg = UserId params
    /\ ccp_Body arg = {| String_ := sanitize tbl (Body params);
                        Valid := true |}
    /\ (String.length (String_ (ccp_Body arg)) <= 140)%nat
    /\ forall t : string,
         In t (strings.Split (String_ (ccp_Body arg)) " ") ->
         isBadWord tbl t = false.
Proof.
  destruct decoded as [err|params].
  - rewrite postChirps_undecoded. cbn [snd trace app createChirpCalls].
    intros [].
  - destruct (Nat.lt_ge_cases 140 (String.length (Body params)))
      as [Hlong|Hshort].
    + rewrite postChirps_too_long by exact Hlong.
      cbn [snd trace app createChirpCalls]. intros [].
    + rewrite postChirps_short by exact Hshort. cbv zeta.
      cbn [store env trace].
      destruct (CreateChirp st _) as [st' [err|chirp]];
        cbn [snd trace app createChirpCalls contentTypeJSON];
        intros [<-|[]];
        exists params; cbn [ccp_UserID ccp_Body String_];
        (repeat split;
         [pose proof (length_sanitize_le tbl (Body params)); lia
         | intros t; apply sanitize_tokens_clean]).
Qed.

(** X16: [POST /api/chirps] answers 201 exactly when the body decoded,
    is at most 140 bytes long and [CreateChirp] succeeded on its
    sanitized form; the only other answers are 400 and 500. *)
Theorem postChirps_201_iff_created
  (decoded : error + chirpParameters UUID) (st : Store) (e : Env) :
  let t := trace (snd (postChirps tbl CreateChirp decoded
                         {| store := st; env := e; trace := [] |})) in
  (statusOf t = Some 201 \/ statusOf t = Some 400 \/ statusOf t = Some 500)
  /\ (statusOf t = Some 201 <->
      exists params chirp,
        decoded = inr params
        /\ (String.length (Body params) <= 140)%nat
        /\ snd (CreateChirp st
                  {| ccp_Body := {| String_ := sanitize tbl (Body params);
                                    Valid := true |};
                     ccp_UserID := UserId params |}) = inr chirp).
Proof.
  cbv zeta. destruct decoded as [err|params].
  - rewrite postChirps_undecoded. cbn [snd trace app statusOf contentTypeJSON].
    split; [auto|]. split; [discriminate|].
    intros [p [c [H _]]]. discriminate.
  - destruct (Nat.lt_ge_cases 140 (String.length (Body params)))
      as [Hlong|Hshort].
    + rewrite postChirps_too_long by exact Hlong.
      cbn [snd trace app statusOf contentTypeJSON tooLongResponse].
      split; [auto|]. split; [discriminate|].
      intros [p [c [H [Hlen _]]]]. injection H as <-. lia.
    + rewrite postChirps_short by exact Hshort. cbv zeta.
      cbn [store env trace].
      destruct (CreateChirp st _) as [st' [err|chirp]] eqn:Hcreate;
        cbn [snd trace app statusOf contentTypeJSON].
      * split; [auto|]. split; [discriminate|].
        intros [p [c [H [_ Hc]]]]. injection H as <-.
        rewrite Hcreate in Hc. discriminate.
      * split; [auto|]. split; [|reflexivity].
        intros _. exists params, chirp.
        split; [reflexivity|]. split; [exact Hshort|].
        now rewrite Hcreate.
Qed.

(** X17: [POST /api/chirps] calls [CreateChirp] once at most, and the
    database is as it was whenever it does not call it. *)
Theorem postChirps_touches_store_only_by_CreateChirp
  (decoded : error + chirpParameters UUID)
  (w : World UUID Time error Store Env) :
  let w' := snd (postChirps tbl CreateChirp decoded w) in
  env w' = env w
  /\ ((createChirpCalls (trace w') = createChirpCalls (trace w)
       /\ store w' = store w)
      \/ exists arg : CreateChirpParams UUID,
           createChirpCalls (trace w')
           = (createChirpCalls (trace w) ++ [arg])%list
           /\ store w' = fst (CreateChirp (store w) arg)).
Proof.
  cbv zeta. destruct decoded as [err|params].
  - rewrite postChirps_undecoded. cbn [snd store env trace].
    split; [reflexivity|]. left. split; [|reflexivity].
    rewrite createChirpCalls_app. simpl. apply app_nil_r.
  - destruct (Nat.lt_ge_cases 140 (String.length (Body params)))
      as [Hlong|Hshort].
    + rewrite postChirps_too_long by exact Hlong. cbn [snd store env trace].
      split; [reflexivity|]. left. split; [|reflexivity].
      rewrite createChirpCalls_app. simpl. apply app_nil_r.
    + rewrite postChirps_short by exact Hshort. cbv zeta.
      destruct (CreateChirp (store w) _) as [st' res] eqn:Hcreate.
      cbn [snd store env trace].
      split; [reflexivity|]. right. eexists. split.
      * rewrite createChirpCalls_app.
        destruct res; cbn [createChirpCalls contentTypeJSON]; reflexivity.
      * now rewrite Hcreate.
Qed.

(** The paths of [POST /api/users]. *)
Lemma postUsers_paths
  (decoded : error + userParameters) (w : World UUID Time error Store Env) :
  postUsers CreateUser HashPassword decoded w =
  match decoded with
  | inl err =>
      (tt, {| store := store w; env := env w;
              trace := (trace w ++ [Print err; WriteHeader 500])%list |})
  | inr params =>
      let '(e', hashed) := HashPassword (env w) (Password params) in
      match hashed with
      | inl err =>
          (tt, {| store := store w; env := e';
                  trace := (trace w ++ [CallHashPassword (Password params);
                                        Print err; WriteHeader 500])%list |})
      | inr hPassword =>
          let userData :=
            {| cup_Email := {| String_ := Email params;
                               Valid := negb (Email params =? "")%string |};
               cup_HashedPassword := hPassword |} in
          let '(st, res) := CreateUser (store w) userData in
          (tt, {| store := st; env := e';
                  trace := (trace w ++ CallHashPassword (Password params)
                              :: CallCreateUser userData ::
                              match res with
                              | inl err => [Print err; WriteHeader 500]
                              | inr user =>
                                  [contentTypeJSON; WriteHeader 201;
                                   Write (userResp (user_ID user)
                                            (user_CreatedAt user)
                                            (user_UpdatedAt user)
                                            (String_ (user_Email user)))]
                              end)%list |})
      end
  end.
Proof.
  unfold postUsers, bind, emit, auth_HashPassword, db_CreateUser.
  destruct decoded as [err|params]; cbn [store env trace].
  - now rewrite <- !app_assoc.
  - destruct (HashPassword (env w) (Password params)) as [e' [err|h]];
      cbn [store env trace].
    + now rewrite <- !app_assoc.
    + cbv zeta.
      destruct (CreateUser (store w) _) as [st [err|user]];
        cbn [store env trace]; unfold contentTypeJSON;
        now rewrite <- !app_assoc.
Qed.

(** X18: [POST /api/users] hands a user to [CreateUser] only after
    [HashPassword] succeeded on the decoded password, and what it hands
    over as the credential is the string that [HashPassword] returned;
    when the body does not decode or the hashing fails, [CreateUser] is
    not called. *)
Theorem stored_credential_is_the_hash
  (decoded : error + userParameters) (st : Store) (e : Env)
  (arg : CreateUserParams) :
  In arg (createUserCalls
            (trace (snd (postUsers CreateUser HashPassword decoded
                           {| store := st; env := e; trace := [] |})))) ->
  exists (params : userParameters) (e' : Env) (h : string),
    decoded = inr params
    /\ HashPassword e (Password params) = (e', inr h)
    /\ cup_HashedPassword arg = h
    /\ String_ (cup_Email arg) = Email params.
Proof.
  rewrite postUsers_paths. cbn [store env trace].
  destruct decoded as [err|params]; [intros []|].
  destruct (HashPassword e (Password params)) as [e' [err|h]] eqn:Hhash;
    [intros []|].
  cbv zeta. destruct (CreateUser st _) as [st' [err|user]];
    cbn [snd trace app createUserCalls contentTypeJSON]; intros [<-|[]];
    exists params, e', h; repeat split; exact Hhash.
Qed.

(** X19: [POST /api/users] answers 201 exactly when the body decoded,
    the password was hashed and [CreateUser] succeeded; in every other
    case it answers 500, and the database is as it was unless
    [CreateUser] was called. *)
Theorem postUsers_201_iff_created
  (decoded : error + userParameters) (st : Store) (e : Env) :
  let w' := snd (postUsers CreateUser HashPassword decoded
                   {| store := st; env := e; trace := [] |}) in
  (statusOf (trace w') = Some 201 \/ statusOf (trace w') = Some 500)
  /\ (statusOf (trace w') = Some 201 <->
      exists params e' h user,
        decoded = inr params
        /\ HashPassword e (Password params) = (e', inr h)
        /\ snd (CreateUser st
                  {| cup_Email :=
                       {| String_ := Email params;
                          Valid := negb (Email params =? "")%string |};
                     cup_HashedPassword := h |}) = inr user)
  /\ (createUserCalls (trace w') = [] -> store w' = st).
Proof.
  cbv zeta. rewrite postUsers_paths. cbn [store env trace].
  destruct decoded as [err|params].
  - cbn [snd store trace app statusOf createUserCalls].
    split; [auto|]. split; [|reflexivity].
    split; [discriminate|]. intros [p [e' [h [u [H _]]]]]. discriminate.
  - destruct (HashPassword e (Password params)) as [e' [err|h]] eqn:Hhash.
    + cbn [snd store trace app statusOf createUserCalls].
      split; [auto|]. split; [|reflexivity].
      split; [discriminate|].
      intros [p [e2 [h [u [H [Hh _]]]]]]. injection H as <-.
      rewrite Hhash in Hh. discriminate.
    + cbv zeta.
      destruct (CreateUser st _) as [st' [err|user]] eqn:Hcreate;
        cbn [snd store trace app statusOf createUserCalls contentTypeJSON].
      * split; [auto|]. split; [|discriminate].
        split; [discriminate|].
        intros [p [e2 [h2 [u [H [Hh Hc]]]]]]. injection H as <-.
        rewrite Hhash in Hh. injection Hh as <- <-.
        rewrite Hcreate in Hc. discriminate.
      * split; [auto|]. split; [|discriminate].
        split; [|reflexivity]. intros _.
        exists params, e', h, user.
        split; [reflexivity|]. split; [exact Hhash|].
        now rewrite Hcreate.
Qed.

End WritingHandlers.

(** ** The further properties at work on concrete inputs *)

Lemma isBadWord_ignores_punctuation_witness :
  strings.allBytes (strings.contains ".,!?") "?!" = true
  /\ strings.allBytes (strings.contains ".,!?") "..." = true
  /\ isBadWord InMemory.To_LowerCase ("?!" ++ "Sharbert" ++ "...")
     = isBadWord InMemory.To_LowerCase "Sharbert".
Proof.
  split; [reflexivity|]. split; [reflexivity|].
  apply (isBadWord_ignores_punctuation InMemory.To_LowerCase
           "?!" "Sharbert" "..."); reflexivity.
Defined.

Lemma isBadWord_ignores_ascii_case_witness :
  isASCII "FORNAX" = true /\ isASCII "fOrNaX" = true
  /\ strings.ToLower InMemory.To_LowerCase "FORNAX"
     = strings.ToLower InMemory.To_LowerCase "fOrNaX"
  /\ isBadWord InMemory.To_LowerCase "FORNAX"
     = isBadWord InMemory.To_LowerCase "fOrNaX".
Proof.
  repeat (split; [reflexivity|]).
  apply (isBadWord_ignores_ascii_case InMemory.To_LowerCase
           "FORNAX" "fOrNaX"); reflexivity.
Defined.

Lemma isBadWord_ascii_iff_witness :
  isASCII "Kerfuffle!" = true
  /\ (isBadWord InMemory.To_LowerCase "Kerfuffle!" = true <->
      exists l w r : string,
        "Kerfuffle!" = l ++ w ++ r
        /\ strings.allBytes (strings.contains ".,!?") l = true
        /\ strings.allBytes (strings.contains ".,!?") r = true
        /\ In (strings.ToLower InMemory.To_LowerCase w) badWords).
Proof.
  split; [reflexivity|].
  apply (isBadWord_ascii_iff InMemory.To_LowerCase "Kerfuffle!").
  reflexivity.
Defined.

(** The counter at the largest [int32]: one more request makes it the
    smallest. *)
Lemma middlewareMetricsInc_counts_witness :
  let cfg := {| fileserverHits := 2147483647;
                db := db (InMemoryServer.cfg0 "dev");
                platform := "dev" |} in
  let cfg' := fst (serveAll (middlewareMetricsInc InMemoryServer.fileServer)
                     ["/app/"] cfg) in
  (forall r c, fileserverHits (fst (InMemoryServer.fileServer r c))
               = fileserverHits c)
  /\ - 2 ^ 31 <= fileserverHits cfg < 2 ^ 31
  /\ fileserverHits cfg' = - 2147483648.
Proof.
  cbv zeta.
  assert (Hnext : forall r c,
             fileserverHits (fst (InMemoryServer.fileServer r c))
             = fileserverHits c) by (intros r c; reflexivity).
  split; [exact Hnext|]. split; [simpl; lia|].
  pose proof (middlewareMetricsInc_counts
                InMemory.UUID InMemory.Time InMemory.error InMemory.Store
                InMemoryServer.Request InMemoryServer.fileServer ["/app/"]
                {| fileserverHits := 2147483647;
                   db := db (InMemoryServer.cfg0 "dev");
                   platform := "dev" |}
                Hnext ltac:(simpl; lia)) as [H _].
  exact H.
Defined.

Lemma postReset_forbidden_outside_dev_witness :
  platform (InMemoryServer.cfg0 "prod") <> "dev"
  /\ fst (postReset InMemory.UUID InMemory.Time InMemoryServer.DeleteUsers
            (InMemoryServer.cfg0 "prod"))
     = InMemoryServer.cfg0 "prod".
Proof.
  assert (Hp : platform (InMemoryServer.cfg0 "prod") <> "dev")
    by (simpl; discriminate).
  split; [exact Hp|].
  apply (postReset_forbidden_outside_dev
           InMemory.UUID InMemory.Time InMemory.error InMemory.Store
           InMemoryServer.DeleteUsers (InMemoryServer.cfg0 "prod") Hp).
Defined.

Lemma postReset_in_dev_witness :
  platform (InMemoryServer.cfg0 "dev") = "dev"
  /\ fileserverHits
       (fst (postReset InMemory.UUID InMemory.Time InMemoryServer.DeleteUsers
               (InMemoryServer.cfg0 "dev"))) = 0.
Proof.
  split; [reflexivity|].
  apply (postReset_in_dev
           InMemory.UUID InMemory.Time InMemory.error InMemory.Store
           InMemoryServer.DeleteUsers (InMemoryServer.cfg0 "dev")).
  reflexivity.
Defined.

Lemma metrics_after_reset_witness :
  let reqs := ["/app/"; "/app/index.html"; "/app/logo.png"] in
  let cfg1 := fst (postReset InMemory.UUID InMemory.Time
                     InMemoryServer.DeleteUsers (InMemoryServer.cfg0 "dev")) in
  let cfg2 := fst (serveAll (middlewareMetricsInc InMemoryServer.fileServer)
                     reqs cfg1) in
  platform (InMemoryServer.cfg0 "dev") = "dev"
  /\ Z.of_nat (List.length reqs) < 2 ^ 31
  /\ responseBody (snd (getMetrics InMemory.UUID InMemory.Time InMemory.error
                          cfg2))
     = [WriteMetricsPage 3].
Proof.
  cbv zeta. split; [reflexivity|]. split; [simpl; lia|].
  apply (metrics_after_reset
           InMemory.UUID InMemory.Time InMemory.error InMemory.Store
           InMemoryServer.Request InMemoryServer.DeleteUsers
           InMemoryServer.fileServer
           ["/app/"; "/app/index.html"; "/app/logo.png"]
           (InMemoryServer.cfg0 "dev")).
  - intros r c. reflexivity.
  - reflexivity.
  - simpl. lia.
Defined.

Lemma getChirpByID_malformed_id_is_200_witness :
  InMemoryServer.uuid_Parse "not-a-uuid" = inl "invalid UUID format"
  /\ responseStatus
       (snd (getChirpByID InMemoryServer.GetChirpByID
               InMemoryServer.uuid_Parse InMemoryServer.Error
               "not-a-uuid" (InMemoryServer.cfg0 "dev")))
     = Some 200.
Proof.
  split; [reflexivity|].
  apply (getChirpByID_malformed_id_is_200
           InMemory.UUID InMemory.Time InMemory.error InMemory.Store
           InMemoryServer.GetChirpByID InMemoryServer.uuid_Parse
           InMemoryServer.Error "not-a-uuid" (InMemoryServer.cfg0 "dev")
           "invalid UUID format").
  reflexivity.
Defined.

Lemma stored_chirp_is_short_and_clean_witness :
  let decoded : InMemory.error + chirpParameters InMemory.UUID :=
    inr {| Body := "I had a kerfuffle"; UserId := 3%nat |} in
  let arg := {| ccp_Body := {| String_ := "I had a ****"; Valid := true |};
                ccp_UserID := 3%nat |} in
  In arg (createChirpCalls
            (trace (snd (postChirps InMemory.To_LowerCase InMemory.CreateChirp
                           decoded
                           {| store := store InMemory.world0;
                              env := env InMemory.world0;
                              trace := [] |}))))
  /\ (String.length (String_ (ccp_Body arg)) <= 140)%nat.
Proof.
  cbv zeta.
  assert (Hin : In {| ccp_Body := {| String_ := "I had a ****";
                                     Valid := true |};
                      ccp_UserID := 3%nat |}
                  (createChirpCalls
                     (trace (snd (postChirps InMemory.To_LowerCase
                                    InMemory.CreateChirp
                                    (inr {| Body := "I had a kerfuffle";
                                            UserId := 3%nat |})
                                    {| store := store InMemory.world0;
                                       env := env InMemory.world0;
                                       trace := [] |}))))).
  { vm_compute. left. reflexivity. }
  split; [exact Hin|].
  destruct (stored_chirp_is_short_and_clean
              InMemory.To_LowerCase InMemory.UUID InMemory.Time
              InMemory.error InMemory.Store InMemory.Env InMemory.CreateChirp
              _ _ _ _ Hin) as [params [_ [_ [_ [Hlen _]]]]].
  exact Hlen.
Defined.

Lemma stored_credential_is_the_hash_witness :
  let decoded : InMemory.error + userParameters :=
    inr {| Email := "a@b.c"; Password := "hunter2" |} in
  let arg := {| cup_Email := {| String_ := "a@b.c"; Valid := true |};
                cup_HashedPassword := "NaCl2retnuh:lCaN" |} in
  In arg (createUserCalls
            (trace (snd (postUsers InMemory.CreateUser InMemory.HashPassword
                           decoded
                           {| store := store InMemory.world0;
                              env := env InMemory.world0;
                              trace := [] |}))))
  /\ exists (params : userParameters) (e' : InMemory.Env) (h : string),
       decoded = inr params
       /\ InMemory.HashPassword (env InMemory.world0) (Password params)
          = (e', inr h)
       /\ cup_HashedPassword arg = h
       /\ String_ (cup_Email arg) = Email params.
Proof.
  cbv zeta.
  assert (Hin : In {| cup_Email := {| String_ := "a@b.c"; Valid := true |};
                      cup_HashedPassword := "NaCl2retnuh:lCaN" |}
                  (createUserCalls
                     (trace (snd (postUsers InMemory.CreateUser
                                    InMemory.HashPassword
                                    (inr {| Email := "a@b.c";
                                            Password := "hunter2" |})
                                    {| store := store InMemory.world0;
                                       env := env InMemory.world0;
                                       trace := [] |}))))).
  { vm_compute. left. reflexivity. }
  split; [exact Hin|].
  exact (stored_credential_is_the_hash
           InMemory.UUID InMemory.Time InMemory.error InMemory.Store
           InMemory.Env InMemory.CreateUser InMemory.HashPassword
           _ _ _ _ Hin).
Defined.
